(** * Reification phase of the template pipeline

    A shallow embedding of
    [packages/compiler/src/template/pipeline/src/phases/reify.ts]
    and of the parts of the output AST ([o]), of the intermediate
    representation ([ir]) and of the instruction builders ([ng]) that the
    phase reads or calls.

    JavaScript numbers that hold slots, offsets and counts are integers and
    are modelled as [Z]; a value that may be [null] at run time is an
    [option]; an exception is an [Error] of the [Result] monad, so that a
    [throw] aborts everything that follows it. *)

From Stdlib Require Import ZArith List String Bool Lia.
Import ListNotations.
Local Open Scope string_scope.
Local Open Scope Z_scope.
Local Open Scope list_scope.

Set Implicit Arguments.

(** ** Fatal errors and the result monad *)

Definition XrefId := Z.

(** [ir.OpKind]: the kinds that [reify.ts] names, and every other kind of
    the enumeration under its name. *)
Inductive OpKind : Type :=
| TextKind | ElementStartKind | ElementKind | ElementEndKind
| ContainerStartKind | ContainerKind | ContainerEndKind
| TemplateKind | PipeKind | ListenerKind | VariableKind | StatementKind
| AdvanceKind | PropertyKind | StylePropKind | ClassPropKind
| StyleMapKind | ClassMapKind
| InterpolateTextKind | AttributeKind | HostPropertyKind
| OtherOpKind (name : string).

(** One constructor per [throw] of the file (and one for the [TypeError] of
    reading a property of [undefined]); the arguments are what the message
    interpolates. *)
Inductive FatalError : Type :=
| MustBeCompilingComponent
    (* AssertionError: must be compiling a component *)
| UndefinedChildView (xref : XrefId)
    (* TypeError: childView is undefined *)
| UnnamedVariable (xref : XrefId)
    (* AssertionError: unnamed variable ${op.xref} *)
| UnsupportedCreateOp (kind : OpKind)
    (* AssertionError: Unsupported reification of create op ${ir.OpKind[op.kind]} *)
| UnsupportedUpdateOp (kind : OpKind)
    (* AssertionError: Unsupported reification of update op ${ir.OpKind[op.kind]} *)
| NotYetHandled
    (* not yet handled *)
| UnresolvedLexicalRead (name : string)
    (* AssertionError: unresolved LexicalRead of ${expr.name} *)
| UnresolvedRestoreView
    (* AssertionError: unresolved RestoreView *)
| ReadOfUnnamedVariable (xref : XrefId)
    (* Read of unnamed variable ${expr.xref} *)
| ReadOfUnnamedTemporary (xref : XrefId)
    (* Read of unnamed temporary ${expr.xref} *)
| AssignOfUnnamedTemporary (xref : XrefId)
    (* Assign of unnamed temporary ${expr.xref} *)
| PureFunctionsNotExtracted
    (* AssertionError: expected PureFunctions to have been extracted *)
| PureFunctionParameterNotExtracted
    (* AssertionError: expected PureFunctionParameterExpr to have been extracted *)
| UnsupportedExpressionKind (kind : string)
    (* AssertionError: Unsupported reification of ir.Expression kind: ${ir.ExpressionKind[expr.kind]} *)
| ExpectedReifiedStatement (kind : OpKind).
    (* AssertionError: expected reified statements, but found op ${ir.OpKind[op.kind]} *)

Inductive Result (A : Type) : Type :=
| OK (a : A)
| Error (e : FatalError).

Arguments OK {A} a.
Arguments Error {A} e.

Definition bind {A B : Type} (r : Result A) (k : A -> Result B) : Result B :=
  match r with
  | OK a => k a
  | Error e => Error e
  end.

Notation "x <- r ;; k" := (bind r (fun x => k))
  (at level 61, r at next level, right associativity).

(** A [for] loop that rewrites every element in turn and stops at the first
    [throw].  The function is outside the [fix], so that the loop can be
    used on the children of a node of the expression tree. *)
Definition mapM {A B : Type} (f : A -> Result B) : list A -> Result (list B) :=
  fix go (l : list A) : Result (list B) :=
    match l with
    | [] => OK []
    | a :: rest =>
        b <- f a ;;
        rest' <- go rest ;;
        OK (b :: rest')
    end.

Definition isOK {A : Type} (r : Result A) : bool :=
  match r with OK _ => true | Error _ => false end.

(** ** The output AST and the IR expressions ([o.Expression], [ir.Expression]) *)

Record ParseSourceSpan : Type := { spanStart : Z; spanEnd : Z }.

Inductive LiteralValue : Type :=
| LNull
| LNumber (n : Z)
| LString (s : string).

Record FnParam : Type := { paramName : string }.

Inductive StmtModifier : Type := NoModifier | Final | Private | Exported | Static.

(** Modelled from the spec: the names of the runtime instructions, one for
    each builder of [ng] that [reify.ts] calls (the table of identifiers is
    not part of the sources at hand). *)
Module Identifiers.
Inductive t : Type :=
| text | elementStart | element | elementEnd
| elementContainerStart | elementContainer | elementContainerEnd
| template | pipe | listener
| advance | property | propertyInterpolate
| styleProp | stylePropInterpolate | classProp
| styleMap | styleMapInterpolate | classMap | classMapInterpolate
| textInterpolate | attribute | attributeInterpolate | hostProperty
| nextContext | reference | restoreView | resetView | getCurrentView
| pureFunction | pipeBind | pipeBindV.
End Identifiers.

(** Modelled from the spec: the declarations of [output_ast.ts] and of
    [ir/src/expression.ts] are not part of the sources at hand.  An
    expression node is either a final expression of the output code generator
    (the first nine constructors) or an IR expression (the others, those
    for which [ir.isIrExpression] holds).  The IR constructors carry the
    fields that [reifyIrExpression] reads; [OtherIrExpr] stands for every
    IR kind that the phase has no case for, under the name of its kind. *)
Unset Elimination Schemes.
Inductive Expression : Type :=
| LiteralExpr (value : LiteralValue)
| LiteralArrayExpr (entries : list Expression)
| ReadVarExpr (name : option string)
| WriteVarExpr (name : string) (value : Expression)
| ReadPropExpr (receiver : Expression) (name : string)
| BinaryOperatorExpr (operator : string) (lhs rhs : Expression)
| ExternalExpr (ref : Identifiers.t)
| InvokeFunctionExpr (fn : Expression) (args : list Expression)
                     (sourceSpan : option ParseSourceSpan)
| FunctionExpr (params : list FnParam) (statements : list Statement)
               (name : option string)
| NextContextExpr (steps : Z)
| ReferenceExpr (target : XrefId) (slot : option Z) (offset : Z)
| LexicalReadExpr (name : string)
| RestoreViewExpr (view : XrefId + Expression)
| ResetViewExpr (expr : Expression)
| GetCurrentViewExpr
| ReadVariableExpr (xref : XrefId) (name : option string)
| ReadTemporaryExpr (xref : XrefId) (name : option string)
| AssignTemporaryExpr (expr : Expression) (xref : XrefId) (name : option string)
| PureFunctionExpr (fn : option Expression) (args : list Expression)
                   (varOffset : option Z)
| PureFunctionParameterExpr (index : Z)
| PipeBindingExpr (slot : option Z) (varOffset : option Z) (args : list Expression)
| PipeBindingVariadicExpr (slot : option Z) (varOffset : option Z)
                          (args : list Expression)
| OtherIrExpr (kind : string) (children : list Expression)
with Statement : Type :=
| ExpressionStatement (expr : Expression)
| DeclareVarStmt (name : string) (value : option Expression)
                 (modifiers : StmtModifier)
| ReturnStatement (value : Expression)
| IfStmt (condition : Expression) (trueCase falseCase : list Statement).
Set Elimination Schemes.

(** Modelled from the spec: [ir.Interpolation], whose declaration is not
    part of the sources at hand: literal string fragments interleaved with
    sub-expressions.  [reify.ts] reads its [strings] and [expressions], and
    tells it from an expression where an operation holds either of them
    ([op.expression instanceof ir.Interpolation]). *)
Record Interpolation : Type :=
  { strings : list string; expressions : list Expression }.

Inductive ExpressionOrInterpolation : Type :=
| IsExpression (expr : Expression)
| IsInterpolation (interpolation : Interpolation).

(** Induction over an expression and the statements of the functions in it:
    the children of a node are given by [Forall], a nullable child by an
    [option] match. *)
Section ExpressionInduction.
Variable P : Expression -> Prop.
Variable Q : Statement -> Prop.

Definition OptP (o : option Expression) : Prop :=
  match o with Some e => P e | None => True end.

Hypothesis HLiteral : forall v, P (LiteralExpr v).
Hypothesis HLiteralArray : forall es, Forall P es -> P (LiteralArrayExpr es).
Hypothesis HReadVar : forall n, P (ReadVarExpr n).
Hypothesis HWriteVar : forall n v, P v -> P (WriteVarExpr n v).
Hypothesis HReadProp : forall r n, P r -> P (ReadPropExpr r n).
Hypothesis HBinary : forall op l r, P l -> P r -> P (BinaryOperatorExpr op l r).
Hypothesis HExternal : forall r, P (ExternalExpr r).
Hypothesis HInvoke : forall f args sp,
    P f -> Forall P args -> P (InvokeFunctionExpr f args sp).
Hypothesis HFunction : forall ps body n, Forall Q body -> P (FunctionExpr ps body n).
Hypothesis HNextContext : forall steps, P (NextContextExpr steps).
Hypothesis HReference : forall t s d, P (ReferenceExpr t s d).
Hypothesis HLexicalRead : forall n, P (LexicalReadExpr n).
Hypothesis HRestoreViewNumber : forall x, P (RestoreViewExpr (inl x)).
Hypothesis HRestoreViewExpr : forall e, P e -> P (RestoreViewExpr (inr e)).
Hypothesis HResetView : forall e, P e -> P (ResetViewExpr e).
Hypothesis HGetCurrentView : P GetCurrentViewExpr.
Hypothesis HReadVariable : forall x n, P (ReadVariableExpr x n).
Hypothesis HReadTemporary : forall x n, P (ReadTemporaryExpr x n).
Hypothesis HAssignTemporary : forall e x n, P e -> P (AssignTemporaryExpr e x n).
Hypothesis HPureFunction : forall f args vo,
    OptP f -> Forall P args -> P (PureFunctionExpr f args vo).
Hypothesis HPureFunctionParameter : forall i, P (PureFunctionParameterExpr i).
Hypothesis HPipeBinding : forall s vo args,
    Forall P args -> P (PipeBindingExpr s vo args).
Hypothesis HPipeBindingVariadic : forall s vo args,
    Forall P args -> P (PipeBindingVariadicExpr s vo args).
Hypothesis HOtherIr : forall k cs, Forall P cs -> P (OtherIrExpr k cs).
Hypothesis HExpressionStatement : forall e, P e -> Q (ExpressionStatement e).
Hypothesis HDeclareVar : forall n v m, OptP v -> Q (DeclareVarStmt n v m).
Hypothesis HReturn : forall e, P e -> Q (ReturnStatement e).
Hypothesis HIf : forall c t f, P c -> Forall Q t -> Forall Q f -> Q (IfStmt c t f).

Fixpoint Expression_Statement_ind (e : Expression) {struct e} : P e :=
  let all :=
    fix all (es : list Expression) : Forall P es :=
      match es with
      | [] => Forall_nil P
      | x :: r => Forall_cons x (Expression_Statement_ind x) (all r)
      end in
  let allS :=
    fix allS (ss : list Statement) : Forall Q ss :=
      match ss with
      | [] => Forall_nil Q
      | x :: r => Forall_cons x (Statement_Expression_ind x) (allS r)
      end in
  match e as e' return P e' with
  | LiteralExpr v => HLiteral v
  | LiteralArrayExpr es => HLiteralArray (all es)
  | ReadVarExpr n => HReadVar n
  | WriteVarExpr n v => HWriteVar n (Expression_Statement_ind v)
  | ReadPropExpr r n => HReadProp n (Expression_Statement_ind r)
  | BinaryOperatorExpr op l r =>
      HBinary op (Expression_Statement_ind l) (Expression_Statement_ind r)
  | ExternalExpr r => HExternal r
  | InvokeFunctionExpr f args sp =>
      HInvoke sp (Expression_Statement_ind f) (all args)
  | FunctionExpr ps body n => HFunction ps n (allS body)
  | NextContextExpr steps => HNextContext steps
  | ReferenceExpr t s d => HReference t s d
  | LexicalReadExpr n => HLexicalRead n
  | RestoreViewExpr (inl x) => HRestoreViewNumber x
  | RestoreViewExpr (inr v) => HRestoreViewExpr (Expression_Statement_ind v)
  | ResetViewExpr x => HResetView (Expression_Statement_ind x)
  | GetCurrentViewExpr => HGetCurrentView
  | ReadVariableExpr x n => HReadVariable x n
  | ReadTemporaryExpr x n => HReadTemporary x n
  | AssignTemporaryExpr x xr n => HAssignTemporary xr n (Expression_Statement_ind x)
  | PureFunctionExpr f args vo =>
      HPureFunction f vo
        (match f as o' return OptP o' with
         | Some x => Expression_Statement_ind x
         | None => I
         end)
        (all args)
  | PureFunctionParameterExpr i => HPureFunctionParameter i
  | PipeBindingExpr s vo args => HPipeBinding s vo (all args)
  | PipeBindingVariadicExpr s vo args => HPipeBindingVariadic s vo (all args)
  | OtherIrExpr k cs => HOtherIr k (all cs)
  end
with Statement_Expression_ind (s : Statement) {struct s} : Q s :=
  let allS :=
    fix allS (ss : list Statement) : Forall Q ss :=
      match ss with
      | [] => Forall_nil Q
      | x :: r => Forall_cons x (Statement_Expression_ind x) (allS r)
      end in
  match s as s' return Q s' with
  | ExpressionStatement e => HExpressionStatement (Expression_Statement_ind e)
  | DeclareVarStmt n v m =>
      HDeclareVar n v m
        (match v as o' return OptP o' with
         | Some x => Expression_Statement_ind x
         | None => I
         end)
  | ReturnStatement e => HReturn (Expression_Statement_ind e)
  | IfStmt c t f => HIf (Expression_Statement_ind c) (allS t) (allS f)
  end.

Definition Expression_Statement_both : (forall e, P e) /\ (forall s, Q s) :=
  conj Expression_Statement_ind Statement_Expression_ind.
End ExpressionInduction.

(** ** Operations ([ir.CreateOp], [ir.UpdateOp]) *)

(** Modelled from the spec: the operation types of [ir/src/ops] are not part
    of the sources at hand.  Each constructor carries the fields that
    [reify.ts] reads from an operation of that kind; a binding whose case
    tests [instanceof ir.Interpolation] holds an expression or an
    interpolation, the class binding ("interpolation is not supported for
    this kind") holds an expression.  [OtherUpdateOp] stands for every
    update operation whose kind has no case in [reifyUpdateOperations], with
    the name of its kind and the expressions it contains. *)
Inductive UpdateOp : Type :=
| AdvanceOp (delta : Z) (sourceSpan : option ParseSourceSpan)
| PropertyOp (name : string) (expression : ExpressionOrInterpolation)
             (sourceSpan : option ParseSourceSpan)
| StylePropOp (name : string) (expression : ExpressionOrInterpolation)
              (unit : option string)
| ClassPropOp (name : string) (expression : Expression)
| StyleMapOp (expression : ExpressionOrInterpolation)
| ClassMapOp (expression : ExpressionOrInterpolation)
| InterpolateTextOp (interpolation : Interpolation)
                    (sourceSpan : option ParseSourceSpan)
| AttributeOp (name : string) (expression : ExpressionOrInterpolation)
| HostPropertyOp (name : string) (expression : ExpressionOrInterpolation)
| VariableUpdateOp (xref : XrefId) (variableName : option string)
                   (initializer : Expression)
| StatementUpdateOp (statement : Statement)
| OtherUpdateOp (kind : string) (exprs : list Expression).

(** Modelled from the spec: as [UpdateOp], for the create phase.  A listener
    owns the update operations of its handler. *)
Inductive CreateOp : Type :=
| TextOp (slot : option Z) (initialValue : string)
         (sourceSpan : option ParseSourceSpan)
| ElementStartOp (slot : option Z) (tag : string) (attributes localRefs : option Z)
                 (sourceSpan : option ParseSourceSpan)
| ElementOp (slot : option Z) (tag : string) (attributes localRefs : option Z)
            (sourceSpan : option ParseSourceSpan)
| ElementEndOp (sourceSpan : option ParseSourceSpan)
| ContainerStartOp (slot : option Z) (attributes localRefs : option Z)
                   (sourceSpan : option ParseSourceSpan)
| ContainerOp (slot : option Z) (attributes localRefs : option Z)
              (sourceSpan : option ParseSourceSpan)
| ContainerEndOp
| TemplateOp (xref : XrefId) (slot : option Z) (tag : string)
             (attributes : option Z) (sourceSpan : option ParseSourceSpan)
| PipeOp (slot : option Z) (name : string)
| ListenerOp (name : string) (handlerFnName : option string)
             (handlerOps : list UpdateOp) (consumesDollarEvent : bool)
| VariableCreateOp (xref : XrefId) (variableName : option string)
                   (initializer : Expression)
| StatementCreateOp (statement : Statement)
| OtherCreateOp (kind : string) (exprs : list Expression).

(** [op.kind] *)
Definition updateKind (op : UpdateOp) : OpKind :=
  match op with
  | AdvanceOp _ _ => AdvanceKind
  | PropertyOp _ _ _ => PropertyKind
  | StylePropOp _ _ _ => StylePropKind
  | ClassPropOp _ _ => ClassPropKind
  | StyleMapOp _ => StyleMapKind
  | ClassMapOp _ => ClassMapKind
  | InterpolateTextOp _ _ => InterpolateTextKind
  | AttributeOp _ _ => AttributeKind
  | HostPropertyOp _ _ => HostPropertyKind
  | VariableUpdateOp _ _ _ => VariableKind
  | StatementUpdateOp _ => StatementKind
  | OtherUpdateOp kind _ => OtherOpKind kind
  end.

Definition createKind (op : CreateOp) : OpKind :=
  match op with
  | TextOp _ _ _ => TextKind
  | ElementStartOp _ _ _ _ _ => ElementStartKind
  | ElementOp _ _ _ _ _ => ElementKind
  | ElementEndOp _ => ElementEndKind
  | ContainerStartOp _ _ _ _ => ContainerStartKind
  | ContainerOp _ _ _ _ => ContainerKind
  | ContainerEndOp => ContainerEndKind
  | TemplateOp _ _ _ _ _ => TemplateKind
  | PipeOp _ _ => PipeKind
  | ListenerOp _ _ _ _ => ListenerKind
  | VariableCreateOp _ _ _ => VariableKind
  | StatementCreateOp _ => StatementKind
  | OtherCreateOp kind _ => OtherOpKind kind
  end.

(** ** The output AST helpers ([o]) *)

(** Modelled from the spec: the "primitive node constructors" of the output
    AST ([output_ast.ts], not part of the sources at hand): literal,
    variable reference, assignment to a variable, reference to a runtime
    instruction, function value. *)
Module o.
(** The value of [o.literal] for a number that may be [null] and for a
    string that may be [null]. *)
Definition number (n : option Z) : LiteralValue :=
  match n with Some z => LNumber z | None => LNull end.

Definition nullable (s : option string) : LiteralValue :=
  match s with Some x => LString x | None => LNull end.

Definition literal (value : LiteralValue) : Expression := LiteralExpr value.

Definition literalArr (values : list Expression) : Expression :=
  LiteralArrayExpr values.

Definition variable (name : option string) : Expression := ReadVarExpr name.

(** [o.variable(name).set(value)] *)
Definition set (name : string) (value : Expression) : Expression :=
  WriteVarExpr name value.

Definition importExpr (ref : Identifiers.t) : Expression := ExternalExpr ref.

(** [o.fn(params, body, undefined, undefined, name)] *)
Definition fn (params : list FnParam) (body : list Statement)
           (name : option string) : Expression :=
  FunctionExpr params body name.
End o.

(** ** The traversal of expressions ([ir]) *)

Module ir.

(** Modelled from the spec: [ir.isIrExpression], which tells the IR
    expressions from the final expressions of the output AST. *)
Definition isIrExpression (expr : Expression) : bool :=
  match expr with
  | LiteralExpr _ | LiteralArrayExpr _ | ReadVarExpr _ | WriteVarExpr _ _
  | ReadPropExpr _ _ | BinaryOperatorExpr _ _ _ | ExternalExpr _
  | InvokeFunctionExpr _ _ _ | FunctionExpr _ _ _ => false
  | _ => true
  end.

Section Transform.
Variable transform : Expression -> Result Expression.

Definition transformOpt (go : Expression -> Result Expression)
           (e : option Expression) : Result (option Expression) :=
  match e with
  | Some x => x' <- go x ;; OK (Some x')
  | None => OK None
  end.

(** Modelled from the spec: the traversal of [ir/src/expression.ts],
    which is not part of the sources at hand: it "walks an operation's
    expression subtrees and applies a given substitution function
    bottom-up".  The children of a node are transformed first, from left
    to right, then the node itself, with its new children. *)
Fixpoint transformExpressionsInExpression (expr : Expression) {struct expr}
  : Result Expression :=
  let go := transformExpressionsInExpression in
  match expr with
  | LiteralExpr _ | ReadVarExpr _ | ExternalExpr _
  | NextContextExpr _ | ReferenceExpr _ _ _ | LexicalReadExpr _
  | GetCurrentViewExpr | ReadVariableExpr _ _ | ReadTemporaryExpr _ _
  | PureFunctionParameterExpr _ =>
      transform expr
  | LiteralArrayExpr entries =>
      entries' <- mapM go entries ;;
      transform (LiteralArrayExpr entries')
  | WriteVarExpr name value =>
      value' <- go value ;;
      transform (WriteVarExpr name value')
  | ReadPropExpr receiver name =>
      receiver' <- go receiver ;;
      transform (ReadPropExpr receiver' name)
  | BinaryOperatorExpr operator lhs rhs =>
      lhs' <- go lhs ;;
      rhs' <- go rhs ;;
      transform (BinaryOperatorExpr operator lhs' rhs')
  | InvokeFunctionExpr fn args sourceSpan =>
      fn' <- go fn ;;
      args' <- mapM go args ;;
      transform (InvokeFunctionExpr fn' args' sourceSpan)
  | FunctionExpr params statements name =>
      statements' <- mapM transformExpressionsInStatement statements ;;
      transform (FunctionExpr params statements' name)
  | RestoreViewExpr (inl view) =>
      transform expr
  | RestoreViewExpr (inr view) =>
      view' <- go view ;;
      transform (RestoreViewExpr (inr view'))
  | ResetViewExpr e =>
      e' <- go e ;;
      transform (ResetViewExpr e')
  | AssignTemporaryExpr e xref name =>
      e' <- go e ;;
      transform (AssignTemporaryExpr e' xref name)
  | PureFunctionExpr fn args varOffset =>
      fn' <- transformOpt go fn ;;
      args' <- mapM go args ;;
      transform (PureFunctionExpr fn' args' varOffset)
  | PipeBindingExpr slot varOffset args =>
      args' <- mapM go args ;;
      transform (PipeBindingExpr slot varOffset args')
  | PipeBindingVariadicExpr slot varOffset args =>
      args' <- mapM go args ;;
      transform (PipeBindingVariadicExpr slot varOffset args')
  | OtherIrExpr kind children =>
      children' <- mapM go children ;;
      transform (OtherIrExpr kind children')
  end
with transformExpressionsInStatement (stmt : Statement) {struct stmt}
  : Result Statement :=
  match stmt with
  | ExpressionStatement e =>
      e' <- transformExpressionsInExpression e ;;
      OK (ExpressionStatement e')
  | DeclareVarStmt name value modifiers =>
      value' <- transformOpt transformExpressionsInExpression value ;;
      OK (DeclareVarStmt name value' modifiers)
  | ReturnStatement e =>
      e' <- transformExpressionsInExpression e ;;
      OK (ReturnStatement e')
  | IfStmt condition trueCase falseCase =>
      condition' <- transformExpressionsInExpression condition ;;
      trueCase' <- mapM transformExpressionsInStatement trueCase ;;
      falseCase' <- mapM transformExpressionsInStatement falseCase ;;
      OK (IfStmt condition' trueCase' falseCase')
  end.

(** The carrier keeps its shape: its fragments are untouched and each of
    its sub-expressions is transformed. *)
Definition transformExpressionsInInterpolation (i : Interpolation)
  : Result Interpolation :=
  expressions' <- mapM transformExpressionsInExpression (expressions i) ;;
  OK {| strings := strings i; expressions := expressions' |}.

Definition transformExpressionOrInterpolation (e : ExpressionOrInterpolation)
  : Result ExpressionOrInterpolation :=
  match e with
  | IsExpression expr =>
      expr' <- transformExpressionsInExpression expr ;;
      OK (IsExpression expr')
  | IsInterpolation i =>
      i' <- transformExpressionsInInterpolation i ;;
      OK (IsInterpolation i')
  end.

(** Modelled from the spec: [ir.transformExpressionsInOp] on an update
    operation: every expression that the operation contains is
    transformed. *)
Definition transformExpressionsInUpdateOp (op : UpdateOp) : Result UpdateOp :=
  match op with
  | AdvanceOp _ _ => OK op
  | PropertyOp name expression sourceSpan =>
      expression' <- transformExpressionOrInterpolation expression ;;
      OK (PropertyOp name expression' sourceSpan)
  | StylePropOp name expression unit =>
      expression' <- transformExpressionOrInterpolation expression ;;
      OK (StylePropOp name expression' unit)
  | ClassPropOp name expression =>
      expression' <- transformExpressionsInExpression expression ;;
      OK (ClassPropOp name expression')
  | StyleMapOp expression =>
      expression' <- transformExpressionOrInterpolation expression ;;
      OK (StyleMapOp expression')
  | ClassMapOp expression =>
      expression' <- transformExpressionOrInterpolation expression ;;
      OK (ClassMapOp expression')
  | InterpolateTextOp interpolation sourceSpan =>
      interpolation' <- transformExpressionsInInterpolation interpolation ;;
      OK (InterpolateTextOp interpolation' sourceSpan)
  | AttributeOp name expression =>
      expression' <- transformExpressionOrInterpolation expression ;;
      OK (AttributeOp name expression')
  | HostPropertyOp name expression =>
      expression' <- transformExpressionOrInterpolation expression ;;
      OK (HostPropertyOp name expression')
  | VariableUpdateOp xref variableName initializer =>
      initializer' <- transformExpressionsInExpression initializer ;;
      OK (VariableUpdateOp xref variableName initializer')
  | StatementUpdateOp statement =>
      statement' <- transformExpressionsInStatement statement ;;
      OK (StatementUpdateOp statement')
  | OtherUpdateOp kind exprs =>
      exprs' <- mapM transformExpressionsInExpression exprs ;;
      OK (OtherUpdateOp kind exprs')
  end.

(** Modelled from the spec: [ir.transformExpressionsInOp] on a create
    operation.  The expressions of a listener are those of the
    operations of its handler. *)
Definition transformExpressionsInCreateOp (op : CreateOp) : Result CreateOp :=
  match op with
  | ListenerOp name handlerFnName handlerOps consumesDollarEvent =>
      handlerOps' <- mapM transformExpressionsInUpdateOp handlerOps ;;
      OK (ListenerOp name handlerFnName handlerOps' consumesDollarEvent)
  | VariableCreateOp xref variableName initializer =>
      initializer' <- transformExpressionsInExpression initializer ;;
      OK (VariableCreateOp xref variableName initializer')
  | StatementCreateOp statement =>
      statement' <- transformExpressionsInStatement statement ;;
      OK (StatementCreateOp statement')
  | OtherCreateOp kind exprs =>
      exprs' <- mapM transformExpressionsInExpression exprs ;;
      OK (OtherCreateOp kind exprs')
  | _ => OK op
  end.
End Transform.
End ir.

(** ** The instruction builders ([ng]) *)

(** Modelled from the spec: [instruction.ts] is not part of the sources at
    hand.  It is "an instruction-call builder exposing one constructor per
    instruction kind", and each builder yields a call of its instruction that
    carries the arguments it is given, in the order of its parameters: a
    number or a string as a literal ([null] where it is unset), a sequence as
    an array literal, and the source span on the call.  The builders of the
    operations wrap the call in a statement operation. *)
Module ng.
Definition callExpr (instruction : Identifiers.t) (args : list Expression)
           (sourceSpan : option ParseSourceSpan) : Expression :=
  InvokeFunctionExpr (o.importExpr instruction) args sourceSpan.

Definition callStmt (instruction : Identifiers.t) (args : list Expression)
           (sourceSpan : option ParseSourceSpan) : Statement :=
  ExpressionStatement (callExpr instruction args sourceSpan).

Definition num (n : option Z) : Expression := o.literal (o.number n).
Definition str (s : string) : Expression := o.literal (LString s).
Definition strs (l : list string) : Expression := o.literalArr (map str l).

(** *** Create instructions *)

Definition text slot initialValue sourceSpan : CreateOp :=
  StatementCreateOp
    (callStmt Identifiers.text [num slot; str initialValue] sourceSpan).

Definition elementStart slot tag constIndex localRefIndex sourceSpan : CreateOp :=
  StatementCreateOp
    (callStmt Identifiers.elementStart
              [num slot; str tag; num constIndex; num localRefIndex] sourceSpan).

Definition element slot tag constIndex localRefIndex sourceSpan : CreateOp :=
  StatementCreateOp
    (callStmt Identifiers.element
              [num slot; str tag; num constIndex; num localRefIndex] sourceSpan).

Definition elementEnd sourceSpan : CreateOp :=
  StatementCreateOp (callStmt Identifiers.elementEnd [] sourceSpan).

Definition elementContainerStart slot constIndex localRefIndex sourceSpan
  : CreateOp :=
  StatementCreateOp
    (callStmt Identifiers.elementContainerStart
              [num slot; num constIndex; num localRefIndex] sourceSpan).

Definition elementContainer slot constIndex localRefIndex sourceSpan : CreateOp :=
  StatementCreateOp
    (callStmt Identifiers.elementContainer
              [num slot; num constIndex; num localRefIndex] sourceSpan).

Definition elementContainerEnd : CreateOp :=
  StatementCreateOp (callStmt Identifiers.elementContainerEnd [] None).

Definition template slot (templateFnRef : Expression) decls vars tag constIndex
           sourceSpan : CreateOp :=
  StatementCreateOp
    (callStmt Identifiers.template
              [num slot; templateFnRef; num decls; num vars; str tag;
               num constIndex] sourceSpan).

Definition pipe slot name : CreateOp :=
  StatementCreateOp (callStmt Identifiers.pipe [num slot; str name] None).

Definition listener name (handlerFn : Expression) : CreateOp :=
  StatementCreateOp (callStmt Identifiers.listener [str name; handlerFn] None).

(** *** Update instructions *)

Definition advance (delta : Z) sourceSpan : UpdateOp :=
  StatementUpdateOp
    (callStmt Identifiers.advance [o.literal (LNumber delta)] sourceSpan).

Definition property name (expression : Expression) sourceSpan : UpdateOp :=
  StatementUpdateOp
    (callStmt Identifiers.property [str name; expression] sourceSpan).

Definition propertyInterpolate name strings expressions sourceSpan : UpdateOp :=
  StatementUpdateOp
    (callStmt Identifiers.propertyInterpolate
              [str name; strs strings; o.literalArr expressions] sourceSpan).

Definition styleProp name (expression : Expression) unit : UpdateOp :=
  StatementUpdateOp
    (callStmt Identifiers.styleProp
              [str name; expression; o.literal (o.nullable unit)] None).

Definition stylePropInterpolate name strings expressions unit : UpdateOp :=
  StatementUpdateOp
    (callStmt Identifiers.stylePropInterpolate
              [str name; strs strings; o.literalArr expressions;
               o.literal (o.nullable unit)] None).

Definition classProp name (expression : Expression) : UpdateOp :=
  StatementUpdateOp (callStmt Identifiers.classProp [str name; expression] None).

Definition styleMap (expression : Expression) : UpdateOp :=
  StatementUpdateOp (callStmt Identifiers.styleMap [expression] None).

Definition styleMapInterpolate strings expressions : UpdateOp :=
  StatementUpdateOp
    (callStmt Identifiers.styleMapInterpolate
              [strs strings; o.literalArr expressions] None).

Definition classMap (expression : Expression) : UpdateOp :=
  StatementUpdateOp (callStmt Identifiers.classMap [expression] None).

Definition classMapInterpolate strings expressions : UpdateOp :=
  StatementUpdateOp
    (callStmt Identifiers.classMapInterpolate
              [strs strings; o.literalArr expressions] None).

Definition textInterpolate strings expressions sourceSpan : UpdateOp :=
  StatementUpdateOp
    (callStmt Identifiers.textInterpolate
              [strs strings; o.literalArr expressions] sourceSpan).

Definition attribute name (expression : Expression) : UpdateOp :=
  StatementUpdateOp (callStmt Identifiers.attribute [str name; expression] None).

Definition attributeInterpolate name strings expressions : UpdateOp :=
  StatementUpdateOp
    (callStmt Identifiers.attributeInterpolate
              [str name; strs strings; o.literalArr expressions] None).

Definition hostProperty name (expression : Expression) : UpdateOp :=
  StatementUpdateOp
    (callStmt Identifiers.hostProperty [str name; expression] None).

(** *** Expression instructions *)

Definition nextContext (steps : Z) : Expression :=
  callExpr Identifiers.nextContext [o.literal (LNumber steps)] None.

Definition reference (slot : Z) : Expression :=
  callExpr Identifiers.reference [o.literal (LNumber slot)] None.

Definition restoreView (savedView : Expression) : Expression :=
  callExpr Identifiers.restoreView [savedView] None.

Definition resetView (returnValue : Expression) : Expression :=
  callExpr Identifiers.resetView [returnValue] None.

Definition getCurrentView : Expression :=
  callExpr Identifiers.getCurrentView [] None.

Definition pureFunction varOffset (fn : Expression) args : Expression :=
  callExpr Identifiers.pureFunction [num varOffset; fn; o.literalArr args] None.

Definition pipeBind slot varOffset args : Expression :=
  callExpr Identifiers.pipeBind [num slot; num varOffset; o.literalArr args] None.

Definition pipeBindV slot varOffset args : Expression :=
  callExpr Identifiers.pipeBindV [num slot; num varOffset; o.literalArr args] None.
End ng.

(** ** Compilation units and jobs *)

(** Modelled from the spec: the classes of [compilation.ts] are not part of
    the sources at hand.  A view has its xref, the name of its generated
    function, its count of declarations and of variables (filled by earlier
    phases, [null] before) and its two lists of operations. *)
Record ViewCompilationUnit : Type :=
  { xref : XrefId;
    fnName : option string;
    decls : option Z;
    vars : option Z;
    create : list CreateOp;
    update : list UpdateOp }.

(** Modelled from the spec: a compilation unit that is not a view, for
    which [unit instanceof ViewCompilationUnit] fails: it has its two lists
    of operations and no views to refer to. *)
Record HostBindingCompilationUnit : Type :=
  { hostCreate : list CreateOp;
    hostUpdate : list UpdateOp }.

Inductive CompilationUnit : Type :=
| View (unit : ViewCompilationUnit)
| HostBinding (unit : HostBindingCompilationUnit).

(** Modelled from the spec: a job "owns a mapping from view identifier to
    compilation unit".  The map of a component is kept as the list of its
    entries in the order of their insertion, which is the order in which
    [cpl.units] yields the views and so decides which fatal error is raised
    first; the job of a host has its one unit. *)
Inductive CompilationJob : Type :=
| ComponentCompilationJob (views : list (XrefId * ViewCompilationUnit))
| HostBindingCompilationJob (root : HostBindingCompilationUnit).

(** [job.views.get(xref)] *)
Fixpoint viewsGet (views : list (XrefId * ViewCompilationUnit)) (x : XrefId)
  : option ViewCompilationUnit :=
  match views with
  | [] => None
  | (key, unit) :: rest => if key =? x then Some unit else viewsGet rest x
  end.

(** [job.views]; the job of a host has no views. *)
Definition jobViews (job : CompilationJob) : list (XrefId * ViewCompilationUnit) :=
  match job with
  | ComponentCompilationJob views => views
  | HostBindingCompilationJob _ => []
  end.

(** [cpl.units] *)
Definition units (cpl : CompilationJob) : list CompilationUnit :=
  match cpl with
  | ComponentCompilationJob views => map (fun entry => View (snd entry)) views
  | HostBindingCompilationJob root => [HostBinding root]
  end.

Definition unitCreate (unit : CompilationUnit) : list CreateOp :=
  match unit with
  | View v => create v
  | HostBinding h => hostCreate h
  end.

Definition unitUpdate (unit : CompilationUnit) : list UpdateOp :=
  match unit with
  | View v => update v
  | HostBinding h => hostUpdate h
  end.

(** ** [reify.ts] *)

(** In [expr.slot! + 1 + expr.offset] the assertion [!] is erased when the
    file is compiled, and the addition converts [null] to [0]. *)
Definition toNumber (n : option Z) : Z :=
  match n with Some z => z | None => 0 end.

(** [reifyIrExpression] (lines 209-260). *)
Definition reifyIrExpression (expr : Expression) : Result Expression :=
  if negb (ir.isIrExpression expr) then OK expr
  else
    match expr with
    | NextContextExpr steps => OK (ng.nextContext steps)
    | ReferenceExpr _ slot offset => OK (ng.reference (toNumber slot + 1 + offset))
    | LexicalReadExpr name => Error (UnresolvedLexicalRead name)
    | RestoreViewExpr (inl _) => Error UnresolvedRestoreView
    | RestoreViewExpr (inr view) => OK (ng.restoreView view)
    | ResetViewExpr e => OK (ng.resetView e)
    | GetCurrentViewExpr => OK ng.getCurrentView
    | ReadVariableExpr xref None => Error (ReadOfUnnamedVariable xref)
    | ReadVariableExpr _ (Some name) => OK (o.variable (Some name))
    | ReadTemporaryExpr xref None => Error (ReadOfUnnamedTemporary xref)
    | ReadTemporaryExpr _ (Some name) => OK (o.variable (Some name))
    | AssignTemporaryExpr _ xref None => Error (AssignOfUnnamedTemporary xref)
    | AssignTemporaryExpr e _ (Some name) => OK (o.set name e)
    | PureFunctionExpr None _ _ => Error PureFunctionsNotExtracted
    | PureFunctionExpr (Some fn) args varOffset =>
        OK (ng.pureFunction varOffset fn args)
    | PureFunctionParameterExpr _ => Error PureFunctionParameterNotExtracted
    | PipeBindingExpr slot varOffset args => OK (ng.pipeBind slot varOffset args)
    | PipeBindingVariadicExpr slot varOffset args =>
        OK (ng.pipeBindV slot varOffset args)
    | OtherIrExpr kind _ => Error (UnsupportedExpressionKind kind)
    | _ => Error (UnsupportedExpressionKind "undefined")
    end.

(** The body of the loop of [reifyUpdateOperations] (lines 123-205): the
    expressions of the operation are rewritten, then the operation is
    replaced by the instruction of its kind. *)
Definition reifyUpdateOp (op : UpdateOp) : Result UpdateOp :=
  op <- ir.transformExpressionsInUpdateOp reifyIrExpression op ;;
  match op with
  | AdvanceOp delta sourceSpan => OK (ng.advance delta sourceSpan)
  | PropertyOp name (IsInterpolation i) sourceSpan =>
      OK (ng.propertyInterpolate name (strings i) (expressions i) sourceSpan)
  | PropertyOp name (IsExpression expression) sourceSpan =>
      OK (ng.property name expression sourceSpan)
  | StylePropOp name (IsInterpolation i) unit =>
      OK (ng.stylePropInterpolate name (strings i) (expressions i) unit)
  | StylePropOp name (IsExpression expression) unit =>
      OK (ng.styleProp name expression unit)
  | ClassPropOp name expression => OK (ng.classProp name expression)
  | StyleMapOp (IsInterpolation i) =>
      OK (ng.styleMapInterpolate (strings i) (expressions i))
  | StyleMapOp (IsExpression expression) => OK (ng.styleMap expression)
  | ClassMapOp (IsInterpolation i) =>
      OK (ng.classMapInterpolate (strings i) (expressions i))
  | ClassMapOp (IsExpression expression) => OK (ng.classMap expression)
  | InterpolateTextOp i sourceSpan =>
      OK (ng.textInterpolate (strings i) (expressions i) sourceSpan)
  | AttributeOp name (IsInterpolation i) =>
      OK (ng.attributeInterpolate name (strings i) (expressions i))
  | AttributeOp name (IsExpression expression) => OK (ng.attribute name expression)
  | HostPropertyOp _ (IsInterpolation _) => Error NotYetHandled
  | HostPropertyOp name (IsExpression expression) =>
      OK (ng.hostProperty name expression)
  | VariableUpdateOp xref None _ => Error (UnnamedVariable xref)
  | VariableUpdateOp _ (Some name) initializer =>
      OK (StatementUpdateOp (DeclareVarStmt name (Some initializer) Final))
  | StatementUpdateOp _ => OK op
  | OtherUpdateOp _ _ => Error (UnsupportedUpdateOp (updateKind op))
  end.

(** [reifyUpdateOperations] (lines 121-207): the operations are taken in the
    order of the list and each is replaced where it stands. *)
Definition reifyUpdateOperations (_unit : CompilationUnit) (ops : list UpdateOp)
  : Result (list UpdateOp) :=
  mapM reifyUpdateOp ops.

(** The second loop of [reifyListenerHandler] (lines 274-281). *)
Fixpoint handlerStatements (handlerOps : list UpdateOp) : Result (list Statement) :=
  match handlerOps with
  | [] => OK []
  | StatementUpdateOp statement :: rest =>
      handlerStmts <- handlerStatements rest ;;
      OK (statement :: handlerStmts)
  | op :: _ => Error (ExpectedReifiedStatement (updateKind op))
  end.

(** [reifyListenerHandler] (lines 266-291). *)
Definition reifyListenerHandler (unit : CompilationUnit) (name : option string)
           (handlerOps : list UpdateOp) (consumesDollarEvent : bool)
  : Result Expression :=
  handlerOps' <- reifyUpdateOperations unit handlerOps ;;
  handlerStmts <- handlerStatements handlerOps' ;;
  let params :=
    if consumesDollarEvent then [{| paramName := "$event" |}] else [] in
  OK (o.fn params handlerStmts name).

(** The body of the loop of [reifyCreateOperations] (lines 31-117); [job] is
    the job that [unit.job] refers to. *)
Definition reifyCreateOp (job : CompilationJob) (unit : CompilationUnit)
           (op : CreateOp) : Result CreateOp :=
  op <- ir.transformExpressionsInCreateOp reifyIrExpression op ;;
  match op with
  | TextOp slot initialValue sourceSpan => OK (ng.text slot initialValue sourceSpan)
  | ElementStartOp slot tag attributes localRefs sourceSpan =>
      OK (ng.elementStart slot tag attributes localRefs sourceSpan)
  | ElementOp slot tag attributes localRefs sourceSpan =>
      OK (ng.element slot tag attributes localRefs sourceSpan)
  | ElementEndOp sourceSpan => OK (ng.elementEnd sourceSpan)
  | ContainerStartOp slot attributes localRefs sourceSpan =>
      OK (ng.elementContainerStart slot attributes localRefs sourceSpan)
  | ContainerOp slot attributes localRefs sourceSpan =>
      OK (ng.elementContainer slot attributes localRefs sourceSpan)
  | ContainerEndOp => OK ng.elementContainerEnd
  | TemplateOp xref slot tag attributes sourceSpan =>
      match unit with
      | HostBinding _ => Error MustBeCompilingComponent
      | View _ =>
          match viewsGet (jobViews job) xref with
          | None => Error (UndefinedChildView xref)
          | Some childView =>
              OK (ng.template slot (o.variable (fnName childView))
                              (decls childView) (vars childView)
                              tag attributes sourceSpan)
          end
      end
  | PipeOp slot name => OK (ng.pipe slot name)
  | ListenerOp name handlerFnName handlerOps consumesDollarEvent =>
      listenerFn <-
        reifyListenerHandler unit handlerFnName handlerOps consumesDollarEvent ;;
      OK (ng.listener name listenerFn)
  | VariableCreateOp xref None _ => Error (UnnamedVariable xref)
  | VariableCreateOp _ (Some name) initializer =>
      OK (StatementCreateOp (DeclareVarStmt name (Some initializer) Final))
  | StatementCreateOp _ => OK op
  | OtherCreateOp _ _ => Error (UnsupportedCreateOp (createKind op))
  end.

(** [reifyCreateOperations] (lines 29-119). *)
Definition reifyCreateOperations (job : CompilationJob) (unit : CompilationUnit)
           (ops : list CreateOp) : Result (list CreateOp) :=
  mapM (reifyCreateOp job unit) ops.

(** The loop of [phaseReify] over the views of a component: [done] holds the
    views that have their new lists already, [todo] those still to come, and
    the job that a view reaches through [unit.job] is the one of that
    moment. *)
Fixpoint reifyViews (done todo : list (XrefId * ViewCompilationUnit))
  : Result (list (XrefId * ViewCompilationUnit)) :=
  match todo with
  | [] => OK done
  | (key, unit) :: rest =>
      let job := ComponentCompilationJob (done ++ todo) in
      create' <- reifyCreateOperations job (View unit) (create unit) ;;
      let unit1 :=
        {| xref := xref unit; fnName := fnName unit; decls := decls unit;
           vars := vars unit; create := create'; update := update unit |} in
      update' <- reifyUpdateOperations (View unit1) (update unit1) ;;
      let unit2 :=
        {| xref := xref unit; fnName := fnName unit; decls := decls unit;
           vars := vars unit; create := create'; update := update' |} in
      reifyViews (done ++ [(key, unit2)]) rest
  end.

(** [phaseReify] (lines 22-27): the job with the lists of every unit
    replaced, or the first fatal error. *)
Definition phaseReify (cpl : CompilationJob) : Result CompilationJob :=
  match cpl with
  | ComponentCompilationJob views =>
      views' <- reifyViews [] views ;;
      OK (ComponentCompilationJob views')
  | HostBindingCompilationJob root =>
      create' <- reifyCreateOperations cpl (HostBinding root) (hostCreate root) ;;
      let root1 := {| hostCreate := create'; hostUpdate := hostUpdate root |} in
      update' <- reifyUpdateOperations (HostBinding root1) (hostUpdate root1) ;;
      OK (HostBindingCompilationJob
            {| hostCreate := create'; hostUpdate := update' |})
  end.

(** ** What the phase leaves behind *)

(** No IR expression kind at the node or below it, the bodies of functions
    included. *)
Fixpoint noIrExpression (e : Expression) {struct e} : bool :=
  match e with
  | LiteralExpr _ | ReadVarExpr _ | ExternalExpr _ => true
  | LiteralArrayExpr entries => forallb noIrExpression entries
  | WriteVarExpr _ value => noIrExpression value
  | ReadPropExpr receiver _ => noIrExpression receiver
  | BinaryOperatorExpr _ lhs rhs => noIrExpression lhs && noIrExpression rhs
  | InvokeFunctionExpr fn args _ =>
      noIrExpression fn && forallb noIrExpression args
  | FunctionExpr _ statements _ => forallb noIrStatement statements
  | _ => false
  end
with noIrStatement (s : Statement) {struct s} : bool :=
  match s with
  | ExpressionStatement e => noIrExpression e
  | DeclareVarStmt _ (Some e) _ => noIrExpression e
  | DeclareVarStmt _ None _ => true
  | ReturnStatement e => noIrExpression e
  | IfStmt condition trueCase falseCase =>
      noIrExpression condition && forallb noIrStatement trueCase
      && forallb noIrStatement falseCase
  end.

(** A pass-through statement wrapper whose statement holds no IR
    expression. *)
Definition reifiedCreateOp (op : CreateOp) : Prop :=
  exists statement,
    op = StatementCreateOp statement /\ noIrStatement statement = true.

Definition reifiedUpdateOp (op : UpdateOp) : Prop :=
  exists statement,
    op = StatementUpdateOp statement /\ noIrStatement statement = true.

Definition reifiedUnit (unit : CompilationUnit) : Prop :=
  Forall reifiedCreateOp (unitCreate unit) /\
  Forall reifiedUpdateOp (unitUpdate unit).

(** An expression with a node, at any depth, for which [reifyIrExpression]
    has only a [throw]. *)
Definition rejectedNode (e : Expression) : bool :=
  match e with
  | LexicalReadExpr _ | RestoreViewExpr (inl _) | PureFunctionParameterExpr _
  | OtherIrExpr _ _ => true
  | _ => false
  end.

Definition existsOpt (f : Expression -> bool) (e : option Expression) : bool :=
  match e with Some x => f x | None => false end.

Fixpoint hasRejected (e : Expression) {struct e} : bool :=
  rejectedNode e ||
  match e with
  | LiteralArrayExpr entries => existsb hasRejected entries
  | WriteVarExpr _ value => hasRejected value
  | ReadPropExpr receiver _ => hasRejected receiver
  | BinaryOperatorExpr _ lhs rhs => hasRejected lhs || hasRejected rhs
  | InvokeFunctionExpr fn args _ => hasRejected fn || existsb hasRejected args
  | FunctionExpr _ statements _ => existsb hasRejectedStatement statements
  | RestoreViewExpr (inr view) => hasRejected view
  | ResetViewExpr x => hasRejected x
  | AssignTemporaryExpr x _ _ => hasRejected x
  | PureFunctionExpr fn args _ =>
      existsOpt hasRejected fn || existsb hasRejected args
  | PipeBindingExpr _ _ args => existsb hasRejected args
  | PipeBindingVariadicExpr _ _ args => existsb hasRejected args
  | _ => false
  end
with hasRejectedStatement (s : Statement) {struct s} : bool :=
  match s with
  | ExpressionStatement e => hasRejected e
  | DeclareVarStmt _ value _ => existsOpt hasRejected value
  | ReturnStatement e => hasRejected e
  | IfStmt condition trueCase falseCase =>
      hasRejected condition || existsb hasRejectedStatement trueCase
      || existsb hasRejectedStatement falseCase
  end.

Definition hasRejectedBinding (e : ExpressionOrInterpolation) : bool :=
  match e with
  | IsExpression expr => hasRejected expr
  | IsInterpolation i => existsb hasRejected (expressions i)
  end.

(** An update operation that the phase has no replacement for: one of a
    kind without a case, or one that holds a rejected expression. *)
Definition rejectedUpdateOp (op : UpdateOp) : bool :=
  match op with
  | AdvanceOp _ _ => false
  | PropertyOp _ e _ | StylePropOp _ e _ | StyleMapOp e | ClassMapOp e
  | AttributeOp _ e | HostPropertyOp _ e => hasRejectedBinding e
  | ClassPropOp _ e => hasRejected e
  | InterpolateTextOp i _ => existsb hasRejected (expressions i)
  | VariableUpdateOp _ _ e => hasRejected e
  | StatementUpdateOp s => hasRejectedStatement s
  | OtherUpdateOp _ _ => true
  end.

Definition rejectedCreateOp (op : CreateOp) : bool :=
  match op with
  | ListenerOp _ _ handlerOps _ => existsb rejectedUpdateOp handlerOps
  | VariableCreateOp _ _ e => hasRejected e
  | StatementCreateOp s => hasRejectedStatement s
  | OtherCreateOp _ _ => true
  | _ => false
  end.

Definition rejectedUnit (unit : CompilationUnit) : bool :=
  existsb rejectedCreateOp (unitCreate unit)
  || existsb rejectedUpdateOp (unitUpdate unit).

(** A create operation that is not a nested template. *)
Definition notTemplate (op : CreateOp) : bool :=
  match op with TemplateOp _ _ _ _ _ => false | _ => true end.

(** The expression rewriter: the traversal with [reifyIrExpression]. *)
Abbreviation rewriteExpr := (ir.transformExpressionsInExpression reifyIrExpression).
Abbreviation rewriteStmt := (ir.transformExpressionsInStatement reifyIrExpression).

(** ** The job while the phase runs *)

(** What a nested template reads of the view it refers to. *)
Definition viewMetadata (views : list (XrefId * ViewCompilationUnit)) (x : XrefId)
  : option (option string * option Z * option Z) :=
  match viewsGet views x with
  | Some v => Some (fnName v, decls v, vars v)
  | None => None
  end.

Definition sameMetadata (job1 job2 : CompilationJob) : Prop :=
  forall x, viewMetadata (jobViews job1) x = viewMetadata (jobViews job2) x.

(** The view [entry'] is the view [entry] with its two lists lowered, the
    nested templates being resolved in [job]. *)
Definition reifiesTo (job : CompilationJob)
           (entry entry' : XrefId * ViewCompilationUnit) : Prop :=
  fst entry' = fst entry /\
  xref (snd entry') = xref (snd entry) /\
  fnName (snd entry') = fnName (snd entry) /\
  decls (snd entry') = decls (snd entry) /\
  vars (snd entry') = vars (snd entry) /\
  reifyCreateOperations job (View (snd entry)) (create (snd entry)) =
  OK (create (snd entry')) /\
  reifyUpdateOperations (View (snd entry)) (update (snd entry)) =
  OK (update (snd entry')).

(** The entry of a view whose two lists are lowered. *)
Definition reifiedEntry (entry : XrefId * ViewCompilationUnit) : Prop :=
  reifiedUnit (View (snd entry)).

(** ** A component with a nested template and a listener *)

Definition exampleSpan : option ParseSourceSpan :=
  Some {| spanStart := 0; spanEnd := 42 |}.

Definition exampleInterpolation : Interpolation :=
  {| strings := ["Hello, "; "!"];
     expressions := [ReadVariableExpr 7 (Some "name")] |}.

Definition exampleHandler : list UpdateOp :=
  [VariableUpdateOp 9 (Some "ctx_r1") (NextContextExpr 1);
   StatementUpdateOp
     (ReturnStatement
        (ResetViewExpr
           (InvokeFunctionExpr
              (ReadPropExpr (ReadVariableExpr 9 (Some "ctx_r1")) "save")
              [ReadVarExpr (Some "$event")] None)))].

Definition exampleChild : ViewCompilationUnit :=
  {| xref := 1;
     fnName := Some "App_ng_template_1_Template";
     decls := Some 2;
     vars := Some 1;
     create := [TextOp (Some 0) "" exampleSpan;
                ContainerStartOp (Some 1) None None exampleSpan;
                ContainerEndOp];
     update := [AdvanceOp 1 exampleSpan;
                InterpolateTextOp exampleInterpolation exampleSpan] |}.

Definition exampleRoot : ViewCompilationUnit :=
  {| xref := 0;
     fnName := Some "App_Template";
     decls := Some 3;
     vars := Some 4;
     create := [ElementStartOp (Some 0) "div" None None exampleSpan;
                TemplateOp 1 (Some 1) "ng-template" (Some 0) exampleSpan;
                ListenerOp "click" (Some "App_div_click_0_listener")
                           exampleHandler true;
                ElementEndOp exampleSpan];
     update := [PropertyOp "title" (IsInterpolation exampleInterpolation)
                           exampleSpan;
                ClassPropOp "active"
                            (PipeBindingExpr (Some 2) (Some 1)
                                             [ReferenceExpr 3 (Some 1) 0])] |}.

Definition exampleJob : CompilationJob :=
  ComponentCompilationJob [(0, exampleRoot); (1, exampleChild)].

Definition exampleHost : HostBindingCompilationUnit :=
  {| hostCreate := [];
     hostUpdate := [HostPropertyOp "id" (IsExpression (ReadVarExpr (Some "ctx")))] |}.

(** The job that [phaseReify] makes of [exampleJob]. *)
Definition exampleRootReified : ViewCompilationUnit :=
  {| xref := 0;
     fnName := Some "App_Template";
     decls := Some 3;
     vars := Some 4;
     create :=
       [ng.elementStart (Some 0) "div" None None exampleSpan;
        ng.template (Some 1) (ReadVarExpr (Some "App_ng_template_1_Template"))
                    (Some 2) (Some 1) "ng-template" (Some 0) exampleSpan;
        ng.listener "click"
          (FunctionExpr
             [{| paramName := "$event" |}]
             [DeclareVarStmt "ctx_r1" (Some (ng.nextContext 1)) Final;
              ReturnStatement
                (ng.resetView
                   (InvokeFunctionExpr
                      (ReadPropExpr (ReadVarExpr (Some "ctx_r1")) "save")
                      [ReadVarExpr (Some "$event")] None))]
             (Some "App_div_click_0_listener"));
        ng.elementEnd exampleSpan];
     update :=
       [ng.propertyInterpolate "title" ["Hello, "; "!"]
                               [ReadVarExpr (Some "name")] exampleSpan;
        ng.classProp "active"
                     (ng.pipeBind (Some 2) (Some 1) [ng.reference 2])] |}.

Definition exampleChildReified : ViewCompilationUnit :=
  {| xref := 1;
     fnName := Some "App_ng_template_1_Template";
     decls := Some 2;
     vars := Some 1;
     create := [ng.text (Some 0) "" exampleSpan;
                ng.elementContainerStart (Some 1) None None exampleSpan;
                ng.elementContainerEnd];
     update := [ng.advance 1 exampleSpan;
                ng.textInterpolate ["Hello, "; "!"] [ReadVarExpr (Some "name")]
                                   exampleSpan] |}.

Definition exampleJobReified : CompilationJob :=
  ComponentCompilationJob [(0, exampleRootReified); (1, exampleChildReified)].

(** ** When the phase runs to its end *)

Definition isSome {A : Type} (o : option A) : bool :=
  match o with Some _ => true | None => false end.

(** An expression none of whose nodes makes [reifyIrExpression] throw: no
    lexical read, no parameter of a pure function, no restore-view on a
    number, no IR expression of a kind without a case, no read or assignment
    of a variable or temporary without a name, no pure function without its
    extracted function. *)
Fixpoint reifiableExpr (e : Expression) {struct e} : bool :=
  match e with
  | LiteralExpr _ | ReadVarExpr _ | ExternalExpr _ => true
  | LiteralArrayExpr entries => forallb reifiableExpr entries
  | WriteVarExpr _ value => reifiableExpr value
  | ReadPropExpr receiver _ => reifiableExpr receiver
  | BinaryOperatorExpr _ lhs rhs => reifiableExpr lhs && reifiableExpr rhs
  | InvokeFunctionExpr fn args _ =>
      reifiableExpr fn && forallb reifiableExpr args
  | FunctionExpr _ statements _ => forallb reifiableStmt statements
  | NextContextExpr _ | ReferenceExpr _ _ _ | GetCurrentViewExpr => true
  | LexicalReadExpr _ => false
  | RestoreViewExpr (inl _) => false
  | RestoreViewExpr (inr view) => reifiableExpr view
  | ResetViewExpr x => reifiableExpr x
  | ReadVariableExpr _ name => isSome name
  | ReadTemporaryExpr _ name => isSome name
  | AssignTemporaryExpr x _ name => reifiableExpr x && isSome name
  | PureFunctionExpr (Some fn) args _ =>
      reifiableExpr fn && forallb reifiableExpr args
  | PureFunctionExpr None _ _ => false
  | PureFunctionParameterExpr _ => false
  | PipeBindingExpr _ _ args => forallb reifiableExpr args
  | PipeBindingVariadicExpr _ _ args => forallb reifiableExpr args
  | OtherIrExpr _ _ => false
  end
with reifiableStmt (s : Statement) {struct s} : bool :=
  match s with
  | ExpressionStatement e => reifiableExpr e
  | DeclareVarStmt _ (Some e) _ => reifiableExpr e
  | DeclareVarStmt _ None _ => true
  | ReturnStatement e => reifiableExpr e
  | IfStmt condition trueCase falseCase =>
      reifiableExpr condition && forallb reifiableStmt trueCase
      && forallb reifiableStmt falseCase
  end.

Definition reifiableBinding (e : ExpressionOrInterpolation) : bool :=
  match e with
  | IsExpression expr => reifiableExpr expr
  | IsInterpolation i => forallb reifiableExpr (expressions i)
  end.

(** An update operation that [reifyUpdateOperations] has a replacement
    for. *)
Definition reifiableUpdateOp (op : UpdateOp) : bool :=
  match op with
  | AdvanceOp _ _ => true
  | PropertyOp _ e _ | StylePropOp _ e _ | StyleMapOp e | ClassMapOp e
  | AttributeOp _ e => reifiableBinding e
  | ClassPropOp _ e => reifiableExpr e
  | InterpolateTextOp i _ => forallb reifiableExpr (expressions i)
  | HostPropertyOp _ (IsExpression e) => reifiableExpr e
  | HostPropertyOp _ (IsInterpolation _) => false
  | VariableUpdateOp _ name initializer => reifiableExpr initializer && isSome name
  | StatementUpdateOp s => reifiableStmt s
  | OtherUpdateOp _ _ => false
  end.

(** A create operation that [reifyCreateOperations] has a replacement for,
    in a unit of a job. *)
Definition reifiableCreateOp (job : CompilationJob) (unit : CompilationUnit)
           (op : CreateOp) : bool :=
  match op with
  | TemplateOp x _ _ _ _ =>
      match unit with
      | View _ => isSome (viewsGet (jobViews job) x)
      | HostBinding _ => false
      end
  | ListenerOp _ _ handlerOps _ => forallb reifiableUpdateOp handlerOps
  | VariableCreateOp _ name initializer => reifiableExpr initializer && isSome name
  | StatementCreateOp s => reifiableStmt s
  | OtherCreateOp _ _ => false
  | _ => true
  end.

Definition reifiableUnit (job : CompilationJob) (unit : CompilationUnit) : bool :=
  forallb (reifiableCreateOp job unit) (unitCreate unit)
  && forallb reifiableUpdateOp (unitUpdate unit).

Definition reifiableJob (cpl : CompilationJob) : bool :=
  forallb (reifiableUnit cpl) (units cpl).

(** The views that the nested templates of a create list name. *)
Fixpoint templateXrefs (ops : list CreateOp) : list XrefId :=
  match ops with
  | [] => []
  | TemplateOp x _ _ _ _ :: rest => x :: templateXrefs rest
  | _ :: rest => templateXrefs rest
  end.

(** A job whose root view is another one than that of [exampleJob], and
    whose child view has the name and the counts of [exampleChild] and no
    operation. *)
Definition exampleRoot2 : ViewCompilationUnit :=
  {| xref := 0;
     fnName := Some "Other_Template";
     decls := Some 9;
     vars := Some 9;
     create := [];
     update := [] |}.

Definition exampleChild2 : ViewCompilationUnit :=
  {| xref := 1;
     fnName := Some "App_ng_template_1_Template";
     decls := Some 2;
     vars := Some 1;
     create := [];
     update := [] |}.

Definition exampleJob2 : CompilationJob :=
  ComponentCompilationJob [(0, exampleRoot2); (1, exampleChild2)].

(** A job whose two views both fail: the first in its update list, the
    second in its create list. *)
Definition exampleFailingViews : list (XrefId * ViewCompilationUnit) :=
  [(0, {| xref := 0; fnName := None; decls := None; vars := None;
          create := [ElementEndOp None];
          update := [HostPropertyOp "id" (IsInterpolation exampleInterpolation)] |});
   (1, {| xref := 1; fnName := None; decls := None; vars := None;
          create := [VariableCreateOp 4 None (NextContextExpr 1)];
          update := [] |})].

Definition exampleFailingJob : CompilationJob :=
  ComponentCompilationJob exampleFailingViews.

(** ** The loop *)

Section MapM.
Context {A B : Type}.
Variable f : A -> Result B.

Lemma mapM_cons (a : A) (l : list A) :
  mapM f (a :: l) = (b <- f a ;; rest <- mapM f l ;; OK (b :: rest)).
Proof. reflexivity. Qed.

Lemma mapM_OK_Forall2 (l : list A) (l' : list B) :
  mapM f l = OK l' <-> Forall2 (fun a b => f a = OK b) l l'.
Proof.
  revert l'. induction l as [|a l IH]; intros l'; split; intros H.
  - inversion H. constructor.
  - inversion H. reflexivity.
  - rewrite mapM_cons in H. destruct (f a) as [b|e] eqn:Ea; [|discriminate].
    simpl in H. destruct (mapM f l) as [r|e] eqn:El; [|discriminate].
    inversion H; subst. constructor; [assumption|]. now apply IH.
  - inversion H as [|a0 b l0 r Ha Hr]; subst. rewrite mapM_cons, Ha. simpl.
    apply IH in Hr. rewrite Hr. reflexivity.
Qed.

Lemma mapM_length (l : list A) (l' : list B) :
  mapM f l = OK l' -> List.length l' = List.length l.
Proof.
  intros H. apply mapM_OK_Forall2 in H.
  induction H; simpl; congruence.
Qed.

Lemma mapM_app (l1 l2 : list A) :
  mapM f (l1 ++ l2) =
  (r1 <- mapM f l1 ;; r2 <- mapM f l2 ;; OK (r1 ++ r2)).
Proof.
  induction l1 as [|a l1 IH].
  - simpl. destruct (mapM f l2); reflexivity.
  - rewrite <- app_comm_cons, !mapM_cons. destruct (f a) as [b|e]; simpl; [|reflexivity].
    rewrite IH. destruct (mapM f l1); simpl; [|reflexivity].
    destruct (mapM f l2); reflexivity.
Qed.

(** A failure is that of the first element that fails, everything before
    it having been replaced. *)
Lemma mapM_Error_first (l : list A) (e : FatalError) :
  mapM f l = Error e ->
  exists pre a post pre',
    l = pre ++ a :: post /\ mapM f pre = OK pre' /\ f a = Error e.
Proof.
  induction l as [|a l IH]; intros H; [discriminate|].
  rewrite mapM_cons in H. destruct (f a) as [b|e0] eqn:Ea.
  - simpl in H. destruct (mapM f l) as [r|e1] eqn:El; [discriminate|].
    inversion H; subst. destruct (IH eq_refl) as (pre & x & post & pre' & -> & Hp & Hx).
    exists (a :: pre), x, post, (b :: pre'). repeat split; [|assumption].
    rewrite mapM_cons, Ea. simpl. rewrite Hp. reflexivity.
  - inversion H; subst. exists [], a, l, []. repeat split. assumption.
Qed.

(** An element that fails makes the loop fail. *)
Lemma mapM_In_Error (l : list A) (a : A) :
  In a l -> isOK (f a) = false -> isOK (mapM f l) = false.
Proof.
  induction l as [|x l IH]; intros Hin Ha; [destruct Hin|].
  rewrite mapM_cons. destruct Hin as [->|Hin].
  - destruct (f a); [discriminate|reflexivity].
  - destruct (f x); [|reflexivity]. simpl.
    specialize (IH Hin Ha). destruct (mapM f l); [discriminate|reflexivity].
Qed.

Lemma mapM_Forall (R : B -> Prop) (l : list A) (l' : list B) :
  Forall (fun a => forall b, f a = OK b -> R b) l ->
  mapM f l = OK l' -> Forall R l'.
Proof.
  intros HF H. apply mapM_OK_Forall2 in H.
  induction H as [|a b l l' Hab _ IH]; constructor.
  - inversion HF; subst; auto.
  - inversion HF; subst; auto.
Qed.
End MapM.

Lemma mapM_ext_Forall {A B : Type} (f g : A -> Result B) (l : list A) :
  Forall (fun a => f a = g a) l -> mapM f l = mapM g l.
Proof.
  induction 1 as [|a l Ha _ IH]; [reflexivity|].
  rewrite !mapM_cons, Ha, IH. reflexivity.
Qed.

Lemma bind_OK {A B : Type} (r : Result A) (k : A -> Result B) (b : B) :
  bind r k = OK b -> exists a, r = OK a /\ k a = OK b.
Proof. destruct r as [a|e]; simpl; [eauto|discriminate]. Qed.

Lemma bind_isOK_false {A B : Type} (r : Result A) (k : A -> Result B) :
  isOK r = false -> isOK (bind r k) = false.
Proof. destruct r; [discriminate|reflexivity]. Qed.

Ltac bindOK H :=
  let a := fresh "x" in
  let Ha := fresh "Hx" in
  apply bind_OK in H; destruct H as (a & Ha & H).

(** ** The expression rewriter leaves no IR expression *)

Lemma Forall_forallb {A : Type} (p : A -> bool) (l : list A) :
  Forall (fun a => p a = true) l -> forallb p l = true.
Proof. induction 1; simpl; [reflexivity|]. now rewrite H, IHForall. Qed.

Lemma forallb_Forall {A : Type} (p : A -> bool) (l : list A) :
  forallb p l = true -> Forall (fun a => p a = true) l.
Proof.
  induction l as [|a l IH]; simpl; intros H; constructor;
    apply andb_prop in H; [apply H | apply IH, H].
Qed.

Lemma mapM_noIr {A : Type} (f : A -> Result A) (p : A -> bool) (l l' : list A) :
  Forall (fun a => forall a', f a = OK a' -> p a' = true) l ->
  mapM f l = OK l' -> forallb p l' = true.
Proof.
  intros HF H. apply Forall_forallb.
  apply (mapM_Forall f (fun b => p b = true) HF H).
Qed.

Lemma transformOpt_OK (go : Expression -> Result Expression)
      (e e' : option Expression) :
  ir.transformOpt go e = OK e' ->
  match e, e' with
  | Some x, Some x' => go x = OK x'
  | None, None => True
  | _, _ => False
  end.
Proof.
  destruct e as [x|]; simpl; intros H.
  - bindOK H. inversion H; subst. assumption.
  - inversion H. exact I.
Qed.

Ltac childrenNoIr :=
  repeat match goal with
    | H : bind _ _ = OK _ |- _ => bindOK H
    | HF : Forall _ ?l, H : mapM _ ?l = OK _ |- _ =>
        apply (mapM_noIr _ _ HF) in H
    | IH : forall e', ?f ?e = OK e' -> _, H : ?f ?e = OK _ |- _ =>
        apply IH in H
    end.

Lemma rewrite_noIr :
  (forall e e', rewriteExpr e = OK e' -> noIrExpression e' = true) /\
  (forall s s', rewriteStmt s = OK s' -> noIrStatement s' = true).
Proof.
  apply Expression_Statement_both; intros; simpl in *; childrenNoIr.
  all: try (match goal with
            | H : ir.transformOpt _ ?o = OK ?o' |- _ =>
                apply transformOpt_OK in H; destruct o, o'; try contradiction
            end; unfold OptP in *; childrenNoIr).
  all: try (match goal with
            | H : reifyIrExpression _ = OK _ |- _ => cbn in H
            end).
  all: try (match goal with
            | H : match ?n with _ => _ end = OK _ |- _ => destruct n
            end).
  all: try discriminate.
  all: match goal with
       | H : OK _ = OK _ |- _ => inversion H; subst; clear H
       end; simpl; rewrite ?andb_true_r;
       repeat match goal with
         | H : _ = true |- _ => rewrite H; clear H
         end; reflexivity.
Qed.

Lemma rewriteExpr_noIr (e e' : Expression) :
  rewriteExpr e = OK e' -> noIrExpression e' = true.
Proof. apply rewrite_noIr. Qed.

Lemma rewriteStmt_noIr (s s' : Statement) :
  rewriteStmt s = OK s' -> noIrStatement s' = true.
Proof. apply rewrite_noIr. Qed.

Lemma mapM_rewriteExpr_noIr (es es' : list Expression) :
  mapM rewriteExpr es = OK es' -> forallb noIrExpression es' = true.
Proof.
  apply mapM_noIr. apply Forall_forall. intros e _ e'. apply rewriteExpr_noIr.
Qed.

Lemma map_str_noIr (l : list string) :
  forallb noIrExpression (map ng.str l) = true.
Proof. induction l; simpl; auto. Qed.

(** What the traversal does to an interpolation: the fragments stay, the
    sub-expressions are rewritten one for one. *)
Lemma transformInterpolation_OK (i i' : Interpolation) :
  ir.transformExpressionsInInterpolation reifyIrExpression i = OK i' ->
  strings i' = strings i /\
  mapM rewriteExpr (expressions i) = OK (expressions i').
Proof.
  unfold ir.transformExpressionsInInterpolation. intros H. bindOK H.
  inversion H; subst. simpl. auto.
Qed.

Lemma transformBinding_OK (e e' : ExpressionOrInterpolation) :
  ir.transformExpressionOrInterpolation reifyIrExpression e = OK e' ->
  match e, e' with
  | IsExpression x, IsExpression x' => rewriteExpr x = OK x'
  | IsInterpolation i, IsInterpolation i' =>
      ir.transformExpressionsInInterpolation reifyIrExpression i = OK i'
  | _, _ => False
  end.
Proof.
  destruct e as [x|i]; simpl; intros H; bindOK H; inversion H; subst; assumption.
Qed.

(** ** Every replacement is a statement wrapper *)

Ltac reifiedStatement :=
  eexists; split; [reflexivity|]; simpl;
  rewrite ?map_str_noIr, ?andb_true_r; simpl;
  repeat match goal with
    | H : rewriteExpr _ = OK _ |- _ => apply rewriteExpr_noIr in H
    | H : rewriteStmt _ = OK _ |- _ => apply rewriteStmt_noIr in H
    | H : mapM rewriteExpr _ = OK _ |- _ => apply mapM_rewriteExpr_noIr in H
    | H : _ = true |- _ => rewrite H; clear H
    end; try reflexivity.

Lemma reifyUpdateOp_reified (op op' : UpdateOp) :
  reifyUpdateOp op = OK op' -> reifiedUpdateOp op'.
Proof.
  unfold reifyUpdateOp. intros H. bindOK H.
  destruct op; simpl in Hx;
    repeat match goal with
      | H : bind _ _ = OK _ |- _ => bindOK H
      | H : OK _ = OK _ |- _ => inversion H; subst; clear H
      | H : ir.transformExpressionOrInterpolation _ ?e = OK ?e' |- _ =>
          apply transformBinding_OK in H; destruct e, e'; try contradiction
      | H : ir.transformExpressionsInInterpolation _ _ = OK _ |- _ =>
          apply transformInterpolation_OK in H; destruct H as [? H]
      end;
    simpl in *; try discriminate;
    try match goal with
      | H : match ?n with _ => _ end = OK _ |- _ => destruct n; try discriminate
      end;
    try match goal with
      | H : OK _ = OK _ |- _ => inversion H; subst; clear H
      end; reifiedStatement.
Qed.

Lemma reifyUpdateOperations_reified (unit : CompilationUnit) (ops ops' : list UpdateOp) :
  reifyUpdateOperations unit ops = OK ops' -> Forall reifiedUpdateOp ops'.
Proof.
  unfold reifyUpdateOperations. apply mapM_Forall.
  apply Forall_forall. intros op _ op'. apply reifyUpdateOp_reified.
Qed.

(** The statements of reified operations are read off in order. *)
Lemma handlerStatements_OK (ops : list UpdateOp) (stmts : list Statement) :
  handlerStatements ops = OK stmts <-> ops = map StatementUpdateOp stmts.
Proof.
  revert stmts. induction ops as [|op ops IH]; intros stmts; split; intros H.
  - inversion H. reflexivity.
  - destruct stmts; [reflexivity|discriminate].
  - destruct op; simpl in H; try discriminate.
    bindOK H. inversion H; subst. apply IH in Hx. subst. reflexivity.
  - destruct stmts as [|s stmts]; [discriminate|]. inversion H; subst.
    simpl. rewrite (proj2 (IH stmts) eq_refl). reflexivity.
Qed.

Lemma reifiedUpdateOps_statements (stmts : list Statement) :
  Forall reifiedUpdateOp (map StatementUpdateOp stmts) ->
  forallb noIrStatement stmts = true.
Proof.
  induction stmts as [|s stmts IH]; simpl; intros H; [reflexivity|].
  inversion H as [|? ? (s' & E & Hs) Hr]; subst. inversion E; subst.
  rewrite Hs. simpl. auto.
Qed.

Lemma reifyListenerHandler_OK (unit : CompilationUnit) (name : option string)
      (handlerOps : list UpdateOp) (consumesDollarEvent : bool) (f : Expression) :
  reifyListenerHandler unit name handlerOps consumesDollarEvent = OK f ->
  exists handlerStmts,
    reifyUpdateOperations unit handlerOps = OK (map StatementUpdateOp handlerStmts) /\
    f = FunctionExpr
          (if consumesDollarEvent then [{| paramName := "$event" |}] else [])
          handlerStmts name.
Proof.
  unfold reifyListenerHandler. intros H. bindOK H. bindOK H.
  apply handlerStatements_OK in Hx0. subst. inversion H; subst.
  exists x0. split; [assumption|reflexivity].
Qed.

Lemma reifyCreateOp_reified (job : CompilationJob) (unit : CompilationUnit)
      (op op' : CreateOp) :
  reifyCreateOp job unit op = OK op' -> reifiedCreateOp op'.
Proof.
  unfold reifyCreateOp. intros H. bindOK H.
  destruct op; simpl in Hx;
    repeat match goal with
      | H : bind _ _ = OK _ |- _ => bindOK H
      | H : OK _ = OK _ |- _ => inversion H; subst; clear H
      end;
    simpl in *; try discriminate.
  all: try (destruct unit; [|discriminate];
            match goal with
            | H : match ?n with _ => _ end = OK _ |- _ => destruct n; try discriminate
            end).
  all: try match goal with
         | HL : reifyListenerHandler _ _ _ _ = OK _ |- _ =>
             apply reifyListenerHandler_OK in HL;
             destruct HL as (stmts & Hops & ->);
             apply reifyUpdateOperations_reified, reifiedUpdateOps_statements in Hops
         end.
  all: try match goal with
      | H : match ?n with _ => _ end = OK _ |- _ => destruct n; try discriminate
      end.
  all: try match goal with
         | H : OK _ = OK _ |- _ => inversion H; subst; clear H
         end; reifiedStatement.
Qed.

Lemma reifyCreateOperations_reified (job : CompilationJob) (unit : CompilationUnit)
      (ops ops' : list CreateOp) :
  reifyCreateOperations job unit ops = OK ops' -> Forall reifiedCreateOp ops'.
Proof.
  unfold reifyCreateOperations. apply mapM_Forall.
  apply Forall_forall. intros op _ op'. apply reifyCreateOp_reified.
Qed.

(** ** The driver *)

Lemma reifyViews_reified (todo done views' : list (XrefId * ViewCompilationUnit)) :
  reifyViews done todo = OK views' ->
  Forall reifiedEntry done -> Forall reifiedEntry views'.
Proof.
  revert done. induction todo as [|[key unit] rest IH]; intros done H Hdone.
  - inversion H; subst. assumption.
  - simpl in H. bindOK H. bindOK H.
    apply IH in H; [assumption|].
    apply Forall_app. split; [assumption|]. constructor; [|constructor].
    split; simpl.
    + eapply reifyCreateOperations_reified; eassumption.
    + eapply reifyUpdateOperations_reified; eassumption.
Qed.

(** **** C1 *)

(** C1. Closure invariant: when [phaseReify] has run to its end, every
    operation of the create list and of the update list of every unit of the
    job is a pass-through statement wrapper ([ir.StatementOp]), and no IR
    expression kind is left in any expression of its statement. *)
Theorem phaseReify_closure (cpl cpl' : CompilationJob) :
  phaseReify cpl = OK cpl' -> Forall reifiedUnit (units cpl').
Proof.
  destruct cpl as [views|root]; simpl; intros H.
  - bindOK H. inversion H; subst. simpl.
    apply reifyViews_reified in Hx; [|constructor].
    apply Forall_map. exact Hx.
  - bindOK H. bindOK H. inversion H; subst. simpl.
    constructor; [|constructor]. split; simpl.
    + eapply reifyCreateOperations_reified; eassumption.
    + eapply reifyUpdateOperations_reified; eassumption.
Qed.

(** ** Rewriting twice, and rewriting what cannot be rewritten *)

Lemma mapM_id {A : Type} (f : A -> Result A) (l : list A) :
  Forall (fun a => f a = OK a) l -> mapM f l = OK l.
Proof.
  induction 1 as [|a l Ha _ IH]; [reflexivity|].
  rewrite mapM_cons, Ha. simpl. rewrite IH. reflexivity.
Qed.

Lemma mapM_id_forallb {A : Type} (f : A -> Result A) (p : A -> bool) (l : list A) :
  Forall (fun a => p a = true -> f a = OK a) l ->
  forallb p l = true -> mapM f l = OK l.
Proof.
  intros HF Hp. apply mapM_id. apply forallb_Forall in Hp.
  induction HF as [|a l Ha _ IH]; constructor; inversion Hp; subst; auto.
Qed.

(** An expression without an IR node is left as it is. *)
Lemma rewrite_noIr_id :
  (forall e, noIrExpression e = true -> rewriteExpr e = OK e) /\
  (forall s, noIrStatement s = true -> rewriteStmt s = OK s).
Proof.
  apply Expression_Statement_both; intros; simpl in *; try discriminate;
    unfold OptP in *;
    repeat match goal with
      | H : _ && _ = true |- _ => apply andb_prop in H; destruct H
      | o : option Expression |- _ => destruct o; simpl in *
      | IH : ?p ?e = true -> _ = OK ?e, H : ?p ?e = true |- _ =>
          rewrite (IH H); clear IH; simpl
      | HF : Forall _ ?l, H : forallb _ ?l = true |- _ =>
          rewrite (mapM_id_forallb _ _ HF H); clear HF; simpl
      end; reflexivity.
Qed.

Lemma existsb_mapM_fail {A B : Type} (f : A -> Result B) (p : A -> bool)
      (l : list A) :
  Forall (fun a => p a = true -> isOK (f a) = false) l ->
  existsb p l = true -> isOK (mapM f l) = false.
Proof.
  intros HF H. apply existsb_exists in H. destruct H as (a & Hin & Hp).
  apply (mapM_In_Error f l a Hin). rewrite Forall_forall in HF. auto.
Qed.

Ltac stepBinds :=
  repeat match goal with
    | |- isOK (bind ?r _) = false =>
        let E := fresh "E" in destruct r eqn:E; simpl; [|reflexivity]
    end.

Ltac rejectedChild :=
  repeat match goal with
    | H : _ || _ = true |- _ => apply orb_prop in H; destruct H
    | E : bind _ _ = OK _ |- _ => bindOK E
    end;
  try discriminate;
  try match goal with
    | IH : ?p ?e = true -> isOK (OK _) = false, H : ?p ?e = true |- _ =>
        specialize (IH H); discriminate
    | IH : ?p ?e = true -> isOK (?f ?e) = false, H : ?p ?e = true,
      E : ?f ?e = OK _ |- _ =>
        apply IH in H; rewrite E in H; discriminate
    | HF : Forall _ ?l, H : existsb _ ?l = true, E : mapM ?f ?l = OK _ |- _ =>
        apply (existsb_mapM_fail f _ HF) in H; rewrite E in H; discriminate
    end.

(** An expression with a rejected node is not rewritten: the traversal
    reaches the node and [reifyIrExpression] throws there, unless something
    else has thrown before. *)
Lemma rewrite_rejected :
  (forall e, hasRejected e = true -> isOK (rewriteExpr e) = false) /\
  (forall s, hasRejectedStatement s = true -> isOK (rewriteStmt s) = false).
Proof.
  apply Expression_Statement_both; intros; simpl in *; try discriminate;
    try reflexivity; unfold OptP in *;
    repeat match goal with
      | o : option Expression |- _ => destruct o; simpl in *
      end;
    stepBinds; try reflexivity; rejectedChild.
Qed.

Lemma rewriteExpr_idem (e e' : Expression) :
  rewriteExpr e = OK e' -> rewriteExpr e' = OK e'.
Proof. intros H. apply rewrite_noIr_id. eapply rewriteExpr_noIr, H. Qed.

Lemma rewriteStmt_idem (s s' : Statement) :
  rewriteStmt s = OK s' -> rewriteStmt s' = OK s'.
Proof. intros H. apply rewrite_noIr_id. eapply rewriteStmt_noIr, H. Qed.

Lemma mapM_rewriteExpr_idem (es es' : list Expression) :
  mapM rewriteExpr es = OK es' -> mapM rewriteExpr es' = OK es'.
Proof.
  intros H. apply mapM_id. apply mapM_OK_Forall2 in H.
  induction H; constructor; eauto using rewriteExpr_idem.
Qed.

Lemma transformInterpolation_idem (i i' : Interpolation) :
  ir.transformExpressionsInInterpolation reifyIrExpression i = OK i' ->
  ir.transformExpressionsInInterpolation reifyIrExpression i' = OK i'.
Proof.
  intros H. apply transformInterpolation_OK in H. destruct H as [_ H].
  unfold ir.transformExpressionsInInterpolation.
  rewrite (mapM_rewriteExpr_idem _ H). destruct i'. reflexivity.
Qed.

Lemma transformBinding_idem (e e' : ExpressionOrInterpolation) :
  ir.transformExpressionOrInterpolation reifyIrExpression e = OK e' ->
  ir.transformExpressionOrInterpolation reifyIrExpression e' = OK e'.
Proof.
  intros H. apply transformBinding_OK in H.
  destruct e, e'; try contradiction; simpl.
  - rewrite (rewriteExpr_idem _ H). reflexivity.
  - rewrite (transformInterpolation_idem _ H). reflexivity.
Qed.

(** The traversal of an operation that it has been through changes
    nothing. *)
Lemma transformExpressionsInUpdateOp_idem (op op' : UpdateOp) :
  ir.transformExpressionsInUpdateOp reifyIrExpression op = OK op' ->
  ir.transformExpressionsInUpdateOp reifyIrExpression op' = OK op'.
Proof.
  destruct op; simpl; intros H;
    repeat match goal with
      | H : bind _ _ = OK _ |- _ => bindOK H
      | H : OK _ = OK _ |- _ => inversion H; subst; clear H
      end; simpl;
    repeat match goal with
      | H : ir.transformExpressionOrInterpolation _ _ = OK _ |- _ =>
          rewrite (transformBinding_idem _ H); clear H
      | H : rewriteExpr _ = OK _ |- _ => rewrite (rewriteExpr_idem _ H); clear H
      | H : rewriteStmt _ = OK _ |- _ => rewrite (rewriteStmt_idem _ H); clear H
      | H : mapM rewriteExpr _ = OK _ |- _ =>
          rewrite (mapM_rewriteExpr_idem _ H); clear H
      | H : ir.transformExpressionsInInterpolation _ _ = OK _ |- _ =>
          rewrite (transformInterpolation_idem _ H); clear H
      end; reflexivity.
Qed.

(** So the lowering of an operation whose expressions have been rewritten
    already is the lowering of the operation as it was. *)
Lemma reifyUpdateOp_after_transform (op op' : UpdateOp) :
  ir.transformExpressionsInUpdateOp reifyIrExpression op = OK op' ->
  reifyUpdateOp op' = reifyUpdateOp op.
Proof.
  intros H. unfold reifyUpdateOp.
  rewrite (transformExpressionsInUpdateOp_idem _ H), H. reflexivity.
Qed.

Lemma reifyUpdateOperations_after_transform (unit : CompilationUnit)
      (ops ops' : list UpdateOp) :
  mapM (ir.transformExpressionsInUpdateOp reifyIrExpression) ops = OK ops' ->
  reifyUpdateOperations unit ops' = reifyUpdateOperations unit ops.
Proof.
  intros H. apply mapM_OK_Forall2 in H. unfold reifyUpdateOperations.
  induction H as [|op op' ops ops' Hop _ IH]; [reflexivity|].
  rewrite !mapM_cons, IH, (reifyUpdateOp_after_transform _ Hop). reflexivity.
Qed.

(** The lowering of an operation goes through the traversal of its
    expressions. *)
Lemma reifyUpdateOp_OK_transform (op op' : UpdateOp) :
  reifyUpdateOp op = OK op' ->
  exists op1, ir.transformExpressionsInUpdateOp reifyIrExpression op = OK op1.
Proof. unfold reifyUpdateOp. intros H. bindOK H. eauto. Qed.

Lemma reifyUpdateOperations_OK_transform (unit : CompilationUnit)
      (ops ops' : list UpdateOp) :
  reifyUpdateOperations unit ops = OK ops' ->
  exists ops1,
    mapM (ir.transformExpressionsInUpdateOp reifyIrExpression) ops = OK ops1.
Proof.
  unfold reifyUpdateOperations. intros H. apply mapM_OK_Forall2 in H.
  induction H as [|op op' ops ops' Hop _ (ops1 & IH)]; [exists []; reflexivity|].
  apply reifyUpdateOp_OK_transform in Hop. destruct Hop as (op1 & Hop).
  exists (op1 :: ops1). rewrite mapM_cons, Hop. simpl. rewrite IH. reflexivity.
Qed.

(** ** Operations that the phase rejects *)

Lemma transformBinding_rejected (e : ExpressionOrInterpolation) :
  hasRejectedBinding e = true ->
  isOK (ir.transformExpressionOrInterpolation reifyIrExpression e) = false.
Proof.
  destruct e as [x|i]; simpl; intros H; apply bind_isOK_false.
  - now apply rewrite_rejected.
  - unfold ir.transformExpressionsInInterpolation. apply bind_isOK_false.
    apply (existsb_mapM_fail _ hasRejected); [|assumption].
    apply Forall_forall. intros e _. apply rewrite_rejected.
Qed.

Lemma mapM_rewriteExpr_rejected (es : list Expression) :
  existsb hasRejected es = true -> isOK (mapM rewriteExpr es) = false.
Proof.
  apply existsb_mapM_fail. apply Forall_forall. intros e _. apply rewrite_rejected.
Qed.

Lemma reifyUpdateOp_rejected (op : UpdateOp) :
  rejectedUpdateOp op = true -> isOK (reifyUpdateOp op) = false.
Proof.
  unfold reifyUpdateOp.
  destruct op; simpl; intros H; try discriminate;
    try (apply bind_isOK_false; apply bind_isOK_false;
         first [ now apply transformBinding_rejected
               | now apply rewrite_rejected
               | now apply mapM_rewriteExpr_rejected ]).
  - apply bind_isOK_false. apply bind_isOK_false.
    unfold ir.transformExpressionsInInterpolation. apply bind_isOK_false.
    now apply mapM_rewriteExpr_rejected.
  - destruct (mapM rewriteExpr exprs); reflexivity.
Qed.

Lemma reifyUpdateOperations_rejected (unit : CompilationUnit) (ops : list UpdateOp) :
  existsb rejectedUpdateOp ops = true ->
  isOK (reifyUpdateOperations unit ops) = false.
Proof.
  apply existsb_mapM_fail. apply Forall_forall. intros op _.
  apply reifyUpdateOp_rejected.
Qed.

Lemma reifyCreateOp_rejected (job : CompilationJob) (unit : CompilationUnit)
      (op : CreateOp) :
  rejectedCreateOp op = true -> isOK (reifyCreateOp job unit op) = false.
Proof.
  unfold reifyCreateOp.
  destruct op; simpl; intros H; try discriminate;
    try (apply bind_isOK_false; apply bind_isOK_false; now apply rewrite_rejected).
  - destruct (mapM (ir.transformExpressionsInUpdateOp reifyIrExpression) handlerOps)
      as [ops1|e] eqn:E; [|reflexivity]. simpl.
    apply bind_isOK_false. unfold reifyListenerHandler. apply bind_isOK_false.
    rewrite (reifyUpdateOperations_after_transform unit _ E).
    now apply reifyUpdateOperations_rejected.
  - destruct (mapM rewriteExpr exprs); reflexivity.
Qed.

Lemma reifyCreateOperations_rejected (job : CompilationJob) (unit : CompilationUnit)
      (ops : list CreateOp) :
  existsb rejectedCreateOp ops = true ->
  isOK (reifyCreateOperations job unit ops) = false.
Proof.
  apply existsb_mapM_fail. apply Forall_forall. intros op _.
  apply reifyCreateOp_rejected.
Qed.

Lemma reifyViews_rejected (todo done : list (XrefId * ViewCompilationUnit)) :
  existsb (fun entry => rejectedUnit (View (snd entry))) todo = true ->
  isOK (reifyViews done todo) = false.
Proof.
  revert done. induction todo as [|[key unit] rest IH]; intros done H;
    [discriminate|].
  simpl in H. simpl.
  destruct (reifyCreateOperations _ _ (create unit)) as [c|e] eqn:Ec; [|reflexivity].
  simpl.
  destruct (reifyUpdateOperations _ (update unit)) as [u|e] eqn:Eu; [|reflexivity].
  simpl. apply orb_prop in H. destruct H as [H|H].
  - unfold rejectedUnit in H. simpl in H. apply orb_prop in H. destruct H as [H|H].
    + apply (reifyCreateOperations_rejected
               (ComponentCompilationJob (done ++ (key, unit) :: rest)) (View unit)) in H.
      rewrite Ec in H. discriminate.
    + apply (reifyUpdateOperations_rejected
               (View {| xref := xref unit; fnName := fnName unit;
                        decls := decls unit; vars := vars unit;
                        create := c; update := update unit |})) in H.
      rewrite Eu in H. discriminate.
  - apply IH, H.
Qed.

(** ** Replacement in place *)

Lemma reifyUpdateOperations_app (unit : CompilationUnit) (ops1 ops2 : list UpdateOp) :
  reifyUpdateOperations unit (ops1 ++ ops2) =
  (r1 <- reifyUpdateOperations unit ops1 ;;
   r2 <- reifyUpdateOperations unit ops2 ;;
   OK (r1 ++ r2)).
Proof. apply mapM_app. Qed.

Lemma reifyCreateOperations_app (job : CompilationJob) (unit : CompilationUnit)
      (ops1 ops2 : list CreateOp) :
  reifyCreateOperations job unit (ops1 ++ ops2) =
  (r1 <- reifyCreateOperations job unit ops1 ;;
   r2 <- reifyCreateOperations job unit ops2 ;;
   OK (r1 ++ r2)).
Proof. apply mapM_app. Qed.

Lemma reifyUpdateOperations_cons (unit : CompilationUnit) (op : UpdateOp)
      (ops : list UpdateOp) :
  reifyUpdateOperations unit (op :: ops) =
  (op' <- reifyUpdateOp op ;;
   rest <- reifyUpdateOperations unit ops ;;
   OK (op' :: rest)).
Proof. reflexivity. Qed.

Lemma reifyCreateOperations_cons (job : CompilationJob) (unit : CompilationUnit)
      (op : CreateOp) (ops : list CreateOp) :
  reifyCreateOperations job unit (op :: ops) =
  (op' <- reifyCreateOp job unit op ;;
   rest <- reifyCreateOperations job unit ops ;;
   OK (op' :: rest)).
Proof. reflexivity. Qed.

Lemma reifyUpdateOperations_single (unit : CompilationUnit) (op op' : UpdateOp) :
  reifyUpdateOperations unit [op] = OK [op'] <-> reifyUpdateOp op = OK op'.
Proof.
  rewrite reifyUpdateOperations_cons. destruct (reifyUpdateOp op); simpl;
    split; intros H; inversion H; reflexivity.
Qed.

Lemma reifyCreateOperations_single (job : CompilationJob) (unit : CompilationUnit)
      (op op' : CreateOp) :
  reifyCreateOperations job unit [op] = OK [op'] <-> reifyCreateOp job unit op = OK op'.
Proof.
  rewrite reifyCreateOperations_cons. destruct (reifyCreateOp job unit op); simpl;
    split; intros H; inversion H; reflexivity.
Qed.

Lemma reifyUpdateOperations_single_Error (unit : CompilationUnit) (op : UpdateOp)
      (e : FatalError) :
  reifyUpdateOperations unit [op] = Error e <-> reifyUpdateOp op = Error e.
Proof.
  rewrite reifyUpdateOperations_cons. destruct (reifyUpdateOp op); simpl;
    split; intros H; inversion H; reflexivity.
Qed.

Lemma reifyCreateOperations_single_Error (job : CompilationJob)
      (unit : CompilationUnit) (op : CreateOp) (e : FatalError) :
  reifyCreateOperations job unit [op] = Error e <-> reifyCreateOp job unit op = Error e.
Proof.
  rewrite reifyCreateOperations_cons. destruct (reifyCreateOp job unit op); simpl;
    split; intros H; inversion H; reflexivity.
Qed.

(** Where an operation stands in a list, its replacement stands in the new
    list, once the operations before it have been replaced. *)
Lemma reifyUpdateOperations_at (unit : CompilationUnit) (pre post pre' : list UpdateOp)
      (op : UpdateOp) :
  reifyUpdateOperations unit pre = OK pre' ->
  reifyUpdateOperations unit (pre ++ op :: post) =
  (op' <- reifyUpdateOp op ;;
   post' <- reifyUpdateOperations unit post ;;
   OK (pre' ++ op' :: post')).
Proof.
  intros H. rewrite reifyUpdateOperations_app, H, reifyUpdateOperations_cons. simpl.
  destruct (reifyUpdateOp op); simpl; [|reflexivity].
  destruct (reifyUpdateOperations unit post); reflexivity.
Qed.

Lemma reifyCreateOperations_at (job : CompilationJob) (unit : CompilationUnit)
      (pre post pre' : list CreateOp) (op : CreateOp) :
  reifyCreateOperations job unit pre = OK pre' ->
  reifyCreateOperations job unit (pre ++ op :: post) =
  (op' <- reifyCreateOp job unit op ;;
   post' <- reifyCreateOperations job unit post ;;
   OK (pre' ++ op' :: post')).
Proof.
  intros H. rewrite reifyCreateOperations_app, H, reifyCreateOperations_cons. simpl.
  destruct (reifyCreateOp job unit op); simpl; [|reflexivity].
  destruct (reifyCreateOperations job unit post); reflexivity.
Qed.

(** **** C2 *)

(** C2. Nested-template wiring: where a create list holds a nested-template
    operation, and the operations before it have been replaced, the phase
    aborts with a fatal error when the enclosing unit is not a view;
    otherwise the view that the xref of the operation names is looked up in
    the views of the job, and the replacement is the template instruction
    with the function name, the count of declarations and the count of
    variables of that view, whatever the enclosing view holds. *)
Theorem template_reads_referenced_view
        (job : CompilationJob) (unit : CompilationUnit)
        (pre post pre' : list CreateOp)
        (x : XrefId) (slot : option Z) (tag : string) (attributes : option Z)
        (sourceSpan : option ParseSourceSpan) :
  reifyCreateOperations job unit pre = OK pre' ->
  reifyCreateOperations job unit
    (pre ++ TemplateOp x slot tag attributes sourceSpan :: post) =
  match unit with
  | HostBinding _ => Error MustBeCompilingComponent
  | View _ =>
      match viewsGet (jobViews job) x with
      | None => Error (UndefinedChildView x)
      | Some childView =>
          post' <- reifyCreateOperations job unit post ;;
          OK (pre' ++
              StatementCreateOp
                (ExpressionStatement
                   (InvokeFunctionExpr
                      (ExternalExpr Identifiers.template)
                      [LiteralExpr (o.number slot);
                       ReadVarExpr (fnName childView);
                       LiteralExpr (o.number (decls childView));
                       LiteralExpr (o.number (vars childView));
                       LiteralExpr (LString tag);
                       LiteralExpr (o.number attributes)]
                      sourceSpan))
              :: post')
      end
  end.
Proof.
  intros H. erewrite reifyCreateOperations_at by exact H.
  unfold reifyCreateOp. simpl. destruct unit as [enclosing|host]; [|reflexivity].
  destruct (viewsGet (jobViews job) x) as [childView|]; reflexivity.
Qed.

(** ** Listeners *)

Lemma handlerStatements_Error (lowered : list UpdateOp) :
  (exists op, In op lowered /\ updateKind op <> StatementKind) ->
  exists kind,
    kind <> StatementKind /\
    handlerStatements lowered = Error (ExpectedReifiedStatement kind).
Proof.
  induction lowered as [|op ops IH]; intros (bad & Hin & Hkind); [destruct Hin|].
  destruct op;
    try (eexists; split; [|reflexivity]; simpl; discriminate).
  destruct Hin as [<-|Hin]; [exfalso; apply Hkind; reflexivity|].
  destruct IH as (kind & Hk & E); [eauto|].
  exists kind. split; [assumption|]. simpl. rewrite E. reflexivity.
Qed.

Lemma reifyListenerHandler_total (unit : CompilationUnit) (name : option string)
      (handlerOps lowered : list UpdateOp) (consumesDollarEvent : bool) :
  reifyUpdateOperations unit handlerOps = OK lowered ->
  exists handlerStmts,
    lowered = map StatementUpdateOp handlerStmts /\
    reifyListenerHandler unit name handlerOps consumesDollarEvent =
    OK (FunctionExpr
          (if consumesDollarEvent then [{| paramName := "$event" |}] else [])
          handlerStmts name).
Proof.
  intros H. pose proof (reifyUpdateOperations_reified _ _ H) as HF.
  assert (exists stmts, lowered = map StatementUpdateOp stmts) as (stmts & ->).
  { clear H. induction HF as [|op ops (s & -> & _) _ (stmts & ->)].
    - exists []. reflexivity.
    - exists (s :: stmts). reflexivity. }
  exists stmts. split; [reflexivity|].
  unfold reifyListenerHandler. rewrite H. simpl.
  rewrite (proj2 (handlerStatements_OK _ stmts) eq_refl). reflexivity.
Qed.

(** **** C3 *)

(** C3. Listener function shape: the function value that
    [reifyListenerHandler] makes of a listener has no parameter when the
    listener does not consume the event and the one parameter [$event] when
    it does, whatever the number of statements of its body; the body is the
    sequence, in order, of the statements that the lowered operations of the
    handler wrap; an error of the lowering is the error of the whole; the
    loop that reads the statements off aborts at an operation that is not a
    statement wrapper; and the listener operation is replaced by the listener
    instruction with the name of the event and that function. *)
Theorem listener_function_shape
        (job : CompilationJob) (unit : CompilationUnit) (name : string)
        (handlerFnName : option string) (handlerOps : list UpdateOp)
        (consumesDollarEvent : bool) :
  (forall lowered,
      reifyUpdateOperations unit handlerOps = OK lowered ->
      exists handlerStmts,
        lowered = map StatementUpdateOp handlerStmts /\
        reifyListenerHandler unit handlerFnName handlerOps consumesDollarEvent =
        OK (FunctionExpr
              (if consumesDollarEvent then [{| paramName := "$event" |}] else [])
              handlerStmts handlerFnName)) /\
  (forall e,
      reifyUpdateOperations unit handlerOps = Error e ->
      reifyListenerHandler unit handlerFnName handlerOps consumesDollarEvent =
      Error e) /\
  (forall lowered,
      (exists op, In op lowered /\ updateKind op <> StatementKind) ->
      exists kind,
        kind <> StatementKind /\
        handlerStatements lowered = Error (ExpectedReifiedStatement kind)) /\
  (forall op',
      reifyCreateOp job unit
        (ListenerOp name handlerFnName handlerOps consumesDollarEvent) = OK op' <->
      exists listenerFn,
        reifyListenerHandler unit handlerFnName handlerOps consumesDollarEvent =
        OK listenerFn /\
        op' = StatementCreateOp
                (ExpressionStatement
                   (InvokeFunctionExpr (ExternalExpr Identifiers.listener)
                      [LiteralExpr (LString name); listenerFn] None))).
Proof.
  split; [|split; [|split]].
  - intros lowered. apply reifyListenerHandler_total.
  - intros e H. unfold reifyListenerHandler. rewrite H. reflexivity.
  - apply handlerStatements_Error.
  - intros op'. unfold reifyCreateOp. simpl. split.
    + intros H.
      destruct (mapM (ir.transformExpressionsInUpdateOp reifyIrExpression) handlerOps)
        as [ops1|e] eqn:H1; [|discriminate].
      simpl in H.
      destruct (reifyListenerHandler unit handlerFnName ops1 consumesDollarEvent)
        as [listenerFn|e] eqn:HL; [|discriminate].
      inversion H; subst. exists listenerFn. split; [|reflexivity].
      unfold reifyListenerHandler in *.
      rewrite <- (reifyUpdateOperations_after_transform unit _ H1). assumption.
    + intros (listenerFn & H & ->).
      assert (exists lowered, reifyUpdateOperations unit handlerOps = OK lowered)
        as (lowered & Hl).
      { unfold reifyListenerHandler in H.
        destruct (reifyUpdateOperations unit handlerOps); [eauto|discriminate]. }
      destruct (reifyUpdateOperations_OK_transform _ _ Hl) as (ops1 & H1).
      rewrite H1. simpl.
      assert (reifyListenerHandler unit handlerFnName ops1 consumesDollarEvent =
              OK listenerFn) as ->.
      { unfold reifyListenerHandler in *.
        rewrite (reifyUpdateOperations_after_transform unit _ H1). assumption. }
      reflexivity.
Qed.

(** **** C4 *)

(** C4. Property bindings: where an update list holds a property binding
    whose expression, once rewritten, is an interpolation of [k]
    sub-expressions, the replacement is the property-interpolate instruction
    with the name, the fragments of the interpolation and its [k] rewritten
    sub-expressions, the fragments being [k + 1] when those of the binding
    are; and where the rewritten expression is not an interpolation, the
    replacement is the property instruction with the name, the expression
    and the source span. *)
Theorem property_interpolation_arity
        (unit : CompilationUnit) (pre post pre' : list UpdateOp) (name : string)
        (binding binding' : ExpressionOrInterpolation)
        (sourceSpan : option ParseSourceSpan) :
  reifyUpdateOperations unit pre = OK pre' ->
  ir.transformExpressionOrInterpolation reifyIrExpression binding = OK binding' ->
  reifyUpdateOperations unit (pre ++ PropertyOp name binding sourceSpan :: post) =
  (post' <- reifyUpdateOperations unit post ;;
   OK (pre' ++
       StatementUpdateOp
         (ExpressionStatement
            match binding' with
            | IsInterpolation i =>
                InvokeFunctionExpr
                  (ExternalExpr Identifiers.propertyInterpolate)
                  [LiteralExpr (LString name);
                   LiteralArrayExpr (map (fun s => LiteralExpr (LString s)) (strings i));
                   LiteralArrayExpr (expressions i)]
                  sourceSpan
            | IsExpression e =>
                InvokeFunctionExpr
                  (ExternalExpr Identifiers.property)
                  [LiteralExpr (LString name); e] sourceSpan
            end)
       :: post')) /\
  (forall i,
      binding = IsInterpolation i ->
      exists i',
        binding' = IsInterpolation i' /\
        strings i' = strings i /\
        mapM rewriteExpr (expressions i) = OK (expressions i') /\
        List.length (expressions i') = List.length (expressions i) /\
        (List.length (strings i) = S (List.length (expressions i)) ->
         List.length (map (fun s => LiteralExpr (LString s)) (strings i')) =
         S (List.length (expressions i')))) /\
  (forall e,
      binding = IsExpression e ->
      exists e', binding' = IsExpression e' /\ rewriteExpr e = OK e').
Proof.
  intros Hpre Hb. split; [|split].
  - erewrite reifyUpdateOperations_at by exact Hpre.
    unfold reifyUpdateOp. simpl. rewrite Hb. simpl.
    destruct binding'; reflexivity.
  - intros i ->. apply transformBinding_OK in Hb.
    destruct binding' as [|i']; [contradiction|].
    apply transformInterpolation_OK in Hb. destruct Hb as [Hs He].
    exists i'. repeat split; try assumption.
    + apply (mapM_length _ _ He).
    + intros Hk. rewrite length_map, Hs, Hk. f_equal. symmetry.
      apply (mapM_length _ _ He).
  - intros e ->. apply transformBinding_OK in Hb.
    destruct binding' as [e'|]; [|contradiction]. eauto.
Qed.

(** **** C5 *)

(** C5. Order preservation: the lowering of a list is the lowering of its
    operations one by one, from the first to the last, each replacement
    standing where its operation stood: a list cut in two is lowered as its
    first part followed by its second part; when the lowering succeeds the
    new list has one replacement for each operation, in the order of the
    operations; and when it fails the error is that of the first operation
    that fails, the operations before it having been replaced. *)
Theorem lowering_preserves_order (job : CompilationJob) (unit : CompilationUnit) :
  (forall ops1 ops2,
      reifyCreateOperations job unit (ops1 ++ ops2) =
      (r1 <- reifyCreateOperations job unit ops1 ;;
       r2 <- reifyCreateOperations job unit ops2 ;;
       OK (r1 ++ r2))) /\
  (forall ops out,
      reifyCreateOperations job unit ops = OK out <->
      Forall2 (fun op op' => reifyCreateOperations job unit [op] = OK [op']) ops out) /\
  (forall ops e,
      reifyCreateOperations job unit ops = Error e ->
      exists pre op post pre',
        ops = pre ++ op :: post /\
        reifyCreateOperations job unit pre = OK pre' /\
        reifyCreateOperations job unit [op] = Error e) /\
  (forall ops1 ops2,
      reifyUpdateOperations unit (ops1 ++ ops2) =
      (r1 <- reifyUpdateOperations unit ops1 ;;
       r2 <- reifyUpdateOperations unit ops2 ;;
       OK (r1 ++ r2))) /\
  (forall ops out,
      reifyUpdateOperations unit ops = OK out <->
      Forall2 (fun op op' => reifyUpdateOperations unit [op] = OK [op']) ops out) /\
  (forall ops e,
      reifyUpdateOperations unit ops = Error e ->
      exists pre op post pre',
        ops = pre ++ op :: post /\
        reifyUpdateOperations unit pre = OK pre' /\
        reifyUpdateOperations unit [op] = Error e).
Proof.
  split; [|split; [|split; [|split; [|split]]]].
  - apply reifyCreateOperations_app.
  - intros ops out. split; intros H.
    + apply mapM_OK_Forall2 in H.
      induction H; constructor; try assumption;
        apply reifyCreateOperations_single; assumption.
    + apply mapM_OK_Forall2.
      induction H; constructor; try assumption;
        apply reifyCreateOperations_single; assumption.
  - intros ops e H. apply mapM_Error_first in H.
    destruct H as (pre & op & post & pre' & -> & Hp & Hop).
    exists pre, op, post, pre'. split; [reflexivity|]. split; [assumption|].
    apply reifyCreateOperations_single_Error, Hop.
  - apply reifyUpdateOperations_app.
  - intros ops out. split; intros H.
    + apply mapM_OK_Forall2 in H.
      induction H; constructor; try assumption;
        apply reifyUpdateOperations_single with (unit := unit); assumption.
    + apply mapM_OK_Forall2.
      induction H; constructor; try assumption;
        apply reifyUpdateOperations_single with (unit := unit); assumption.
  - intros ops e H. apply mapM_Error_first in H.
    destruct H as (pre & op & post & pre' & -> & Hp & Hop).
    exists pre, op, post, pre'. split; [reflexivity|]. split; [assumption|].
    apply reifyUpdateOperations_single_Error, Hop.
Qed.

(** **** C6 *)

(** C6. A reference read of slot [s] and offset [d] is rewritten to the
    reference instruction called with the number [s + 1 + d], by
    [reifyIrExpression] and so by the traversal that applies it. *)
Theorem reference_slot_offset (target : XrefId) (s d : Z) :
  reifyIrExpression (ReferenceExpr target (Some s) d) =
  OK (InvokeFunctionExpr (ExternalExpr Identifiers.reference)
        [LiteralExpr (LNumber (s + 1 + d))] None) /\
  rewriteExpr (ReferenceExpr target (Some s) d) =
  OK (InvokeFunctionExpr (ExternalExpr Identifiers.reference)
        [LiteralExpr (LNumber (s + 1 + d))] None).
Proof. split; reflexivity. Qed.

(** **** C7 *)

(** C7. Host properties: where an update list holds a host-property binding,
    and the operations before it have been replaced, the phase aborts with
    the error "not yet handled" when the rewritten expression of the binding
    is an interpolation, and replaces the binding by the host-property
    instruction with the name and the expression when it is not; so a list
    that holds a host-property binding of an interpolation is never
    lowered. *)
Theorem hostProperty_interpolation_is_fatal
        (unit : CompilationUnit) (pre post pre' : list UpdateOp) (name : string)
        (binding binding' : ExpressionOrInterpolation) :
  reifyUpdateOperations unit pre = OK pre' ->
  ir.transformExpressionOrInterpolation reifyIrExpression binding = OK binding' ->
  reifyUpdateOperations unit (pre ++ HostPropertyOp name binding :: post) =
  match binding' with
  | IsInterpolation _ => Error NotYetHandled
  | IsExpression e =>
      post' <- reifyUpdateOperations unit post ;;
      OK (pre' ++
          StatementUpdateOp
            (ExpressionStatement
               (InvokeFunctionExpr (ExternalExpr Identifiers.hostProperty)
                  [LiteralExpr (LString name); e] None))
          :: post')
  end /\
  (forall i ops,
      In (HostPropertyOp name (IsInterpolation i)) ops ->
      isOK (reifyUpdateOperations unit ops) = false).
Proof.
  intros Hpre Hb. split.
  - erewrite reifyUpdateOperations_at by exact Hpre.
    unfold reifyUpdateOp. simpl. rewrite Hb. simpl.
    destruct binding'; reflexivity.
  - intros i ops Hin. apply (mapM_In_Error reifyUpdateOp ops _ Hin).
    unfold reifyUpdateOp. simpl.
    destruct (ir.transformExpressionsInInterpolation reifyIrExpression i);
      reflexivity.
Qed.

(** **** C8 *)

(** C8. Fatal on unknown: [reifyIrExpression] throws, with an error that
    names the kind, at a lexical read, at a pure-function parameter, at a
    restore-view whose view is still a number and at an IR expression of a
    kind it has no case for; a create or an update operation of a kind
    without a case, once the operations before it have been replaced and
    its own expressions rewritten, aborts the lowering with the error that
    names its kind; and nothing of the sort is dropped or passed through: an
    expression that holds such a node is not rewritten, and a job with a
    unit that holds such an operation or such an expression is not
    compiled. *)
Theorem unsupported_kind_is_fatal :
  (forall name,
      reifyIrExpression (LexicalReadExpr name) = Error (UnresolvedLexicalRead name)) /\
  (forall index,
      reifyIrExpression (PureFunctionParameterExpr index) =
      Error PureFunctionParameterNotExtracted) /\
  (forall view,
      reifyIrExpression (RestoreViewExpr (inl view)) = Error UnresolvedRestoreView) /\
  (forall kind children,
      reifyIrExpression (OtherIrExpr kind children) =
      Error (UnsupportedExpressionKind kind)) /\
  (forall job unit pre pre' post kind exprs exprs',
      reifyCreateOperations job unit pre = OK pre' ->
      mapM rewriteExpr exprs = OK exprs' ->
      reifyCreateOperations job unit (pre ++ OtherCreateOp kind exprs :: post) =
      Error (UnsupportedCreateOp (OtherOpKind kind))) /\
  (forall unit pre pre' post kind exprs exprs',
      reifyUpdateOperations unit pre = OK pre' ->
      mapM rewriteExpr exprs = OK exprs' ->
      reifyUpdateOperations unit (pre ++ OtherUpdateOp kind exprs :: post) =
      Error (UnsupportedUpdateOp (OtherOpKind kind))) /\
  (forall e, hasRejected e = true -> isOK (rewriteExpr e) = false) /\
  (forall cpl unit,
      In unit (units cpl) -> rejectedUnit unit = true ->
      isOK (phaseReify cpl) = false).
Proof.
  split; [reflexivity|]. split; [reflexivity|]. split; [reflexivity|].
  split; [reflexivity|]. split; [|split; [|split]].
  - intros job unit pre pre' post kind exprs exprs' Hpre He.
    erewrite reifyCreateOperations_at by exact Hpre.
    unfold reifyCreateOp. simpl. rewrite He. reflexivity.
  - intros unit pre pre' post kind exprs exprs' Hpre He.
    erewrite reifyUpdateOperations_at by exact Hpre.
    unfold reifyUpdateOp. simpl. rewrite He. reflexivity.
  - apply rewrite_rejected.
  - intros [views|root] unit Hin Hr; simpl in *.
    + apply bind_isOK_false. apply reifyViews_rejected.
      apply in_map_iff in Hin. destruct Hin as (entry & <- & Hin).
      apply existsb_exists. exists entry. split; assumption.
    + destruct Hin as [<-|[]]. unfold rejectedUnit in Hr. simpl in Hr.
      apply orb_prop in Hr. destruct Hr as [Hr|Hr].
      * apply bind_isOK_false. now apply reifyCreateOperations_rejected.
      * destruct (reifyCreateOperations _ _ (hostCreate root)); [|reflexivity].
        simpl. apply bind_isOK_false. now apply reifyUpdateOperations_rejected.
Qed.

(** **** C9 *)

(** C9, as the code has it. Where a create list holds one of these
    operations, and the operations before it have been replaced: an element
    start and a self-closing element are replaced by their instruction with
    the slot, the tag name, the attribute-table reference, the
    local-ref-table reference and the source span; a container start and a
    self-closing container by their instruction with the slot, the
    attribute-table reference, the local-ref-table reference and the source
    span, and no tag name; an element end by its instruction with the source
    span alone; a container end by its instruction with nothing. *)
Theorem element_and_container_payload
        (job : CompilationJob) (unit : CompilationUnit)
        (pre post pre' : list CreateOp) :
  reifyCreateOperations job unit pre = OK pre' ->
  let replacedBy (op : CreateOp) (instruction : Identifiers.t)
                 (args : list Expression) (sourceSpan : option ParseSourceSpan) :=
    reifyCreateOperations job unit (pre ++ op :: post) =
    (post' <- reifyCreateOperations job unit post ;;
     OK (pre' ++
         StatementCreateOp
           (ExpressionStatement
              (InvokeFunctionExpr (ExternalExpr instruction) args sourceSpan))
         :: post')) in
  (forall slot tag attributes localRefs sourceSpan,
      replacedBy (ElementStartOp slot tag attributes localRefs sourceSpan)
                 Identifiers.elementStart
                 [LiteralExpr (o.number slot); LiteralExpr (LString tag);
                  LiteralExpr (o.number attributes);
                  LiteralExpr (o.number localRefs)]
                 sourceSpan) /\
  (forall slot tag attributes localRefs sourceSpan,
      replacedBy (ElementOp slot tag attributes localRefs sourceSpan)
                 Identifiers.element
                 [LiteralExpr (o.number slot); LiteralExpr (LString tag);
                  LiteralExpr (o.number attributes);
                  LiteralExpr (o.number localRefs)]
                 sourceSpan) /\
  (forall slot attributes localRefs sourceSpan,
      replacedBy (ContainerStartOp slot attributes localRefs sourceSpan)
                 Identifiers.elementContainerStart
                 [LiteralExpr (o.number slot);
                  LiteralExpr (o.number attributes);
                  LiteralExpr (o.number localRefs)]
                 sourceSpan) /\
  (forall slot attributes localRefs sourceSpan,
      replacedBy (ContainerOp slot attributes localRefs sourceSpan)
                 Identifiers.elementContainer
                 [LiteralExpr (o.number slot);
                  LiteralExpr (o.number attributes);
                  LiteralExpr (o.number localRefs)]
                 sourceSpan) /\
  (forall sourceSpan,
      replacedBy (ElementEndOp sourceSpan) Identifiers.elementEnd [] sourceSpan) /\
  replacedBy ContainerEndOp Identifiers.elementContainerEnd [] None.
Proof.
  intros Hpre replacedBy. unfold replacedBy.
  repeat split; intros; erewrite reifyCreateOperations_at by exact Hpre;
    reflexivity.
Qed.

(** **** C10 *)

(** C10. The lowering of update operations does not read its unit: two
    units give the same result on the same list, and so does the lowering of
    the handler of a listener; the lowering of create operations reads its
    unit and the job of the unit at nested templates only. *)
Theorem update_lowering_ignores_unit :
  (forall unit1 unit2 ops,
      reifyUpdateOperations unit1 ops = reifyUpdateOperations unit2 ops) /\
  (forall unit1 unit2 name handlerOps consumesDollarEvent,
      reifyListenerHandler unit1 name handlerOps consumesDollarEvent =
      reifyListenerHandler unit2 name handlerOps consumesDollarEvent) /\
  (forall job1 unit1 job2 unit2 ops,
      forallb notTemplate ops = true ->
      reifyCreateOperations job1 unit1 ops = reifyCreateOperations job2 unit2 ops).
Proof.
  split; [reflexivity|]. split; [reflexivity|].
  intros job1 unit1 job2 unit2 ops H. unfold reifyCreateOperations.
  apply mapM_ext_Forall. apply forallb_Forall in H.
  induction H as [|op ops Hop _ IH]; constructor; [|assumption].
  destruct op; try discriminate; unfold reifyCreateOp; simpl; try reflexivity;
    match goal with
    | |- bind (bind ?r _) _ = _ => destruct r; reflexivity
    end.
Qed.

(** ** The job while the phase runs, as the phase sees it *)

Lemma viewsGet_app (a b : list (XrefId * ViewCompilationUnit)) (x : XrefId) :
  viewsGet (a ++ b) x =
  match viewsGet a x with Some v => Some v | None => viewsGet b x end.
Proof.
  induction a as [|[k v] a IH]; simpl; [reflexivity|].
  destruct (k =? x); [reflexivity|apply IH].
Qed.

Lemma sameMetadata_sym (job1 job2 : CompilationJob) :
  sameMetadata job1 job2 -> sameMetadata job2 job1.
Proof. intros H x. symmetry. apply H. Qed.

(** The lists of a view are not what another view reads of it. *)
Lemma sameMetadata_step (done rest : list (XrefId * ViewCompilationUnit))
      (key : XrefId) (u u' : ViewCompilationUnit) :
  fnName u' = fnName u -> decls u' = decls u -> vars u' = vars u ->
  sameMetadata (ComponentCompilationJob ((done ++ [(key, u')]) ++ rest))
               (ComponentCompilationJob (done ++ (key, u) :: rest)).
Proof.
  intros Hf Hd Hv x. unfold viewMetadata. simpl.
  rewrite <- app_assoc. rewrite !viewsGet_app. simpl.
  destruct (viewsGet done x); [reflexivity|].
  destruct (key =? x); [|reflexivity]. rewrite Hf, Hd, Hv. reflexivity.
Qed.

Lemma reifyCreateOp_sameMetadata (job1 job2 : CompilationJob)
      (unit : CompilationUnit) (op : CreateOp) :
  sameMetadata job1 job2 -> reifyCreateOp job1 unit op = reifyCreateOp job2 unit op.
Proof.
  intros H. destruct op; unfold reifyCreateOp; simpl; try reflexivity;
    try match goal with
      | |- bind (bind ?r _) _ = _ => destruct r; reflexivity
      end.
  match goal with
  | |- context [viewsGet (jobViews job1) ?x] =>
      specialize (H x); unfold viewMetadata in H;
      destruct unit; [|reflexivity];
      destruct (viewsGet (jobViews job1) x), (viewsGet (jobViews job2) x);
      try discriminate; [|reflexivity]
  end.
  inversion H as [[Hf Hd Hv]]. rewrite Hf, Hd, Hv. reflexivity.
Qed.

Lemma reifyCreateOperations_sameMetadata (job1 job2 : CompilationJob)
      (unit : CompilationUnit) (ops : list CreateOp) :
  sameMetadata job1 job2 ->
  reifyCreateOperations job1 unit ops = reifyCreateOperations job2 unit ops.
Proof.
  intros H. apply mapM_ext_Forall. apply Forall_forall. intros op _.
  now apply reifyCreateOp_sameMetadata.
Qed.

Lemma reifiesTo_sameMetadata (job1 job2 : CompilationJob)
      (entry entry' : XrefId * ViewCompilationUnit) :
  sameMetadata job1 job2 -> reifiesTo job1 entry entry' -> reifiesTo job2 entry entry'.
Proof.
  intros H (Hk & Hx & Hf & Hd & Hv & Hc & Hu).
  repeat (split; [assumption|]). split; [|assumption].
  rewrite <- (reifyCreateOperations_sameMetadata _ _ H). assumption.
Qed.

(** The loop over the views, although each view sees the job as the views
    before it have left it, gives every view the lowering of its lists in
    the job as it was at the start: keys, order and what the earlier phases
    have filled in are kept. *)
Lemma reifyViews_spec (todo done views' : list (XrefId * ViewCompilationUnit)) :
  reifyViews done todo = OK views' <->
  exists todo',
    views' = done ++ todo' /\
    Forall2 (reifiesTo (ComponentCompilationJob (done ++ todo))) todo todo'.
Proof.
  revert done views'. induction todo as [|[key u] rest IH]; intros done views'.
  - simpl. split.
    + intros H. inversion H; subst. exists []. rewrite app_nil_r.
      split; [reflexivity|constructor].
    + intros (todo' & -> & H). inversion H; subst. rewrite app_nil_r. reflexivity.
  - simpl. split.
    + intros H. bindOK H. bindOK H. apply IH in H.
      destruct H as (rest' & -> & HF).
      eexists ((key, _) :: rest'). split; [rewrite <- app_assoc; reflexivity|].
      constructor.
      * repeat (split; [reflexivity|]). simpl. split; assumption.
      * eapply Forall2_impl; [|exact HF]. intros a b.
        apply reifiesTo_sameMetadata. apply sameMetadata_step; reflexivity.
    + intros (todo' & -> & HF).
      inversion HF as [|a [k' u'] l rest' (Hk & Hx & Hf & Hd & Hv & Hc & Hu) HR];
        subst. simpl in *. subst k'.
      rewrite Hc. simpl.
      unfold reifyUpdateOperations in *. rewrite Hu. simpl.
      apply IH. exists rest'. split.
      * rewrite <- app_assoc. simpl. destruct u'; simpl in *; subst. reflexivity.
      * eapply Forall2_impl; [|exact HR]. intros a b.
        apply reifiesTo_sameMetadata. apply sameMetadata_sym.
        apply sameMetadata_step; reflexivity.
Qed.

(** X6. The views of a component through the phase: [phaseReify] returns a
    job exactly when it can give every view the lowering of its two lists,
    and the job it returns has the same views under the same keys in the
    same order, each with its xref, its function name and its counts
    untouched; although the loop mutates the views one after the other, the
    nested templates of every view are resolved as in the job at the
    start. *)
Lemma phaseReify_component (views : list (XrefId * ViewCompilationUnit))
      (cpl' : CompilationJob) :
  phaseReify (ComponentCompilationJob views) = OK cpl' <->
  exists views',
    cpl' = ComponentCompilationJob views' /\
    Forall2 (reifiesTo (ComponentCompilationJob views)) views views'.
Proof.
  simpl. split.
  - intros H. bindOK H. inversion H; subst. apply reifyViews_spec in Hx.
    destruct Hx as (todo' & -> & HF). exists todo'. split; [reflexivity|exact HF].
  - intros (views' & -> & HF).
    rewrite (proj2 (reifyViews_spec views [] views')); [reflexivity|].
    exists views'. split; [reflexivity|exact HF].
Qed.


(** ** The theorems at the example *)

(** The closure invariant on the example: the phase compiles [exampleJob]
    to [exampleJobReified], all of whose operations are reified. *)
Lemma phaseReify_closure_example : Forall reifiedUnit (units exampleJobReified).
Proof. apply (@phaseReify_closure exampleJob exampleJobReified). reflexivity. Defined.

(** The nested template of the root view takes the function name and the
    counts of the child view. *)
Lemma template_reads_referenced_view_example :
  reifyCreateOperations exampleJob (View exampleRoot)
    ([ElementStartOp (Some 0) "div" None None exampleSpan] ++
     TemplateOp 1 (Some 1) "ng-template" (Some 0) exampleSpan ::
     [ElementEndOp exampleSpan]) =
  OK [ng.elementStart (Some 0) "div" None None exampleSpan;
      ng.template (Some 1) (ReadVarExpr (Some "App_ng_template_1_Template"))
                  (Some 2) (Some 1) "ng-template" (Some 0) exampleSpan;
      ng.elementEnd exampleSpan].
Proof.
  exact (@template_reads_referenced_view exampleJob (View exampleRoot)
           [ElementStartOp (Some 0) "div" None None exampleSpan]
           [ElementEndOp exampleSpan]
           [ng.elementStart (Some 0) "div" None None exampleSpan]
           1 (Some 1) "ng-template" (Some 0) exampleSpan eq_refl).
Defined.

(** The handler of the click listener, which consumes the event. *)
Lemma listener_function_shape_example :
  exists handlerStmts,
    [StatementUpdateOp
       (DeclareVarStmt "ctx_r1" (Some (ng.nextContext 1)) Final);
     StatementUpdateOp
       (ReturnStatement
          (ng.resetView
             (InvokeFunctionExpr
                (ReadPropExpr (ReadVarExpr (Some "ctx_r1")) "save")
                [ReadVarExpr (Some "$event")] None)))] =
    map StatementUpdateOp handlerStmts /\
    reifyListenerHandler (View exampleRoot) (Some "App_div_click_0_listener")
                         exampleHandler true =
    OK (FunctionExpr [{| paramName := "$event" |}] handlerStmts
                     (Some "App_div_click_0_listener")).
Proof.
  exact (proj1 (@listener_function_shape exampleJob (View exampleRoot) "click"
                  (Some "App_div_click_0_listener") exampleHandler true)
               _ eq_refl).
Defined.

(** The second end-to-end example of the spec, after an advance. *)
Lemma property_interpolation_arity_example :
  reifyUpdateOperations (View exampleRoot)
    ([AdvanceOp 1 None] ++
     PropertyOp "title" (IsInterpolation exampleInterpolation) exampleSpan :: []) =
  OK [ng.advance 1 None;
      ng.propertyInterpolate "title" ["Hello, "; "!"]
                             [ReadVarExpr (Some "name")] exampleSpan].
Proof.
  exact (proj1 (@property_interpolation_arity (View exampleRoot)
                  [AdvanceOp 1 None] [] [ng.advance 1 None] "title"
                  (IsInterpolation exampleInterpolation)
                  (IsInterpolation {| strings := ["Hello, "; "!"];
                                      expressions := [ReadVarExpr (Some "name")] |})
                  exampleSpan eq_refl eq_refl)).
Defined.

(** The update list of the child view, operation by operation. *)
Lemma lowering_preserves_order_example :
  Forall2 (fun op op' => reifyUpdateOperations (View exampleChild) [op] = OK [op'])
          (update exampleChild)
          [ng.advance 1 exampleSpan;
           ng.textInterpolate ["Hello, "; "!"] [ReadVarExpr (Some "name")]
                              exampleSpan].
Proof.
  exact (proj1 (proj1 (proj2 (proj2 (proj2 (proj2
           (@lowering_preserves_order exampleJob (View exampleChild))))))
           (update exampleChild) _) eq_refl).
Defined.

(** An interpolated host property. *)
Lemma hostProperty_interpolation_is_fatal_example :
  reifyUpdateOperations (HostBinding exampleHost)
    ([AdvanceOp 1 None] ++
     HostPropertyOp "id" (IsInterpolation exampleInterpolation) :: []) =
  Error NotYetHandled.
Proof.
  exact (proj1 (@hostProperty_interpolation_is_fatal (HostBinding exampleHost)
                  [AdvanceOp 1 None] [] [ng.advance 1 None] "id"
                  (IsInterpolation exampleInterpolation)
                  (IsInterpolation {| strings := ["Hello, "; "!"];
                                      expressions := [ReadVarExpr (Some "name")] |})
                  eq_refl eq_refl)).
Defined.

(** A create operation of a kind without a case, and a job that holds a
    lexical read. *)
Lemma unsupported_kind_is_fatal_example :
  reifyCreateOperations exampleJob (View exampleRoot)
    ([ElementEndOp None] ++ OtherCreateOp "Projection" [NextContextExpr 2] :: []) =
  Error (UnsupportedCreateOp (OtherOpKind "Projection")) /\
  isOK (phaseReify
          (HostBindingCompilationJob
             {| hostCreate := [];
                hostUpdate := [ClassPropOp "on" (ReadPropExpr (LexicalReadExpr "x") "y")] |}))
  = false.
Proof.
  split.
  - exact (proj1 (proj2 (proj2 (proj2 (proj2 unsupported_kind_is_fatal))))
             exampleJob (View exampleRoot) [ElementEndOp None]
             [ng.elementEnd None] [] "Projection" [NextContextExpr 2]
             [ng.nextContext 2] eq_refl eq_refl).
  - apply (proj2 (proj2 (proj2 (proj2 (proj2 (proj2 (proj2
             unsupported_kind_is_fatal))))))
             (HostBindingCompilationJob
                {| hostCreate := [];
                   hostUpdate := [ClassPropOp "on"
                                    (ReadPropExpr (LexicalReadExpr "x") "y")] |})
             (HostBinding
                {| hostCreate := [];
                   hostUpdate := [ClassPropOp "on"
                                    (ReadPropExpr (LexicalReadExpr "x") "y")] |})).
    + left. reflexivity.
    + reflexivity.
Defined.

(** The container of the child view. *)
Lemma element_and_container_payload_example :
  reifyCreateOperations exampleJob (View exampleChild)
    ([TextOp (Some 0) "" exampleSpan] ++
     ContainerStartOp (Some 1) None None exampleSpan :: [ContainerEndOp]) =
  OK [ng.text (Some 0) "" exampleSpan;
      StatementCreateOp
        (ExpressionStatement
           (InvokeFunctionExpr (ExternalExpr Identifiers.elementContainerStart)
              [LiteralExpr (LNumber 1); LiteralExpr LNull; LiteralExpr LNull]
              exampleSpan));
      ng.elementContainerEnd].
Proof.
  exact (proj1 (proj2 (proj2
           (@element_and_container_payload exampleJob (View exampleChild)
              [TextOp (Some 0) "" exampleSpan] [ContainerEndOp]
              [ng.text (Some 0) "" exampleSpan] eq_refl)))
           (Some 1) None None exampleSpan).
Defined.

(** C9, as the spec states it, at a container start: the replacement is not
    a call with a slot, a tag name, an attribute-table reference and a
    local-ref-table reference, whatever the instruction and the tag. *)
Lemma container_start_has_no_tag :
  reifyCreateOperations exampleJob (View exampleChild)
    [ContainerStartOp (Some 1) None None exampleSpan] =
  OK [StatementCreateOp
        (ExpressionStatement
           (InvokeFunctionExpr (ExternalExpr Identifiers.elementContainerStart)
              [LiteralExpr (LNumber 1); LiteralExpr LNull; LiteralExpr LNull]
              exampleSpan))] /\
  ~ (exists instruction tag,
        reifyCreateOperations exampleJob (View exampleChild)
          [ContainerStartOp (Some 1) None None exampleSpan] =
        OK [StatementCreateOp
              (ExpressionStatement
                 (InvokeFunctionExpr (ExternalExpr instruction)
                    [LiteralExpr (LNumber 1); LiteralExpr (LString tag);
                     LiteralExpr LNull; LiteralExpr LNull]
                    exampleSpan))]).
Proof.
  split; [reflexivity|]. intros (instruction & tag & H). discriminate H.
Qed.

(** The create list of the child view, which has no nested template, in
    the root view and in the unit of a host. *)
Lemma update_lowering_ignores_unit_example :
  reifyCreateOperations exampleJob (View exampleRoot) (create exampleChild) =
  reifyCreateOperations (HostBindingCompilationJob exampleHost)
                        (HostBinding exampleHost) (create exampleChild).
Proof.
  exact (proj2 (proj2 update_lowering_ignores_unit)
           exampleJob (View exampleRoot)
           (HostBindingCompilationJob exampleHost) (HostBinding exampleHost)
           (create exampleChild) eq_refl).
Defined.

(** ** When the phase runs to its end: the expression rewriter *)

Lemma isOK_mapM {A B : Type} (f : A -> Result B) (p : A -> bool) (l : list A) :
  Forall (fun a => isOK (f a) = p a) l -> isOK (mapM f l) = forallb p l.
Proof.
  induction 1 as [|a l Ha _ IH]; [reflexivity|].
  rewrite mapM_cons. simpl. rewrite <- Ha, <- IH.
  destruct (f a); simpl; [|reflexivity]. destruct (mapM f l); reflexivity.
Qed.

Lemma isOK_bind {A B : Type} (r : Result A) (k : A -> Result B) (b : bool) :
  (forall a, isOK (k a) = b) -> isOK (bind r k) = isOK r && b.
Proof. intros H. destruct r; simpl; [apply H|reflexivity]. Qed.

Ltac reifiableChildren :=
  repeat match goal with
    | IH : isOK (?f ?e) = ?p ?e |- context [?p ?e] => rewrite <- IH; clear IH
    | HF : Forall (fun a => isOK (?f a) = ?p a) ?l |- context [forallb ?p ?l] =>
        rewrite <- (isOK_mapM f p HF); clear HF
    end.

Ltac caseBinds :=
  repeat match goal with
    | |- context [bind ?r _] =>
        lazymatch r with
        | context [bind _ _] => fail
        | _ => destruct r; simpl
        end
    end.

Lemma rewrite_reifiable :
  (forall e, isOK (rewriteExpr e) = reifiableExpr e) /\
  (forall s, isOK (rewriteStmt s) = reifiableStmt s).
Proof.
  apply Expression_Statement_both; intros; unfold OptP in *; simpl;
    repeat match goal with
      | o : option Expression |- _ => destruct o; simpl in *
      | o : option string |- _ => destruct o; simpl in *
      end;
    reifiableChildren; caseBinds; reflexivity.
Qed.

Lemma isOK_rewriteExpr (e : Expression) : isOK (rewriteExpr e) = reifiableExpr e.
Proof. apply rewrite_reifiable. Qed.

Lemma isOK_rewriteStmt (s : Statement) : isOK (rewriteStmt s) = reifiableStmt s.
Proof. apply rewrite_reifiable. Qed.

Lemma isOK_mapM_rewriteExpr (es : list Expression) :
  isOK (mapM rewriteExpr es) = forallb reifiableExpr es.
Proof. apply isOK_mapM. apply Forall_forall. intros e _. apply isOK_rewriteExpr. Qed.

(** ** When the phase runs to its end: the operations *)

Lemma isOK_reifyUpdateOp (op : UpdateOp) :
  isOK (reifyUpdateOp op) = reifiableUpdateOp op.
Proof.
  destruct op;
    try match goal with
      | b : ExpressionOrInterpolation |- _ => destruct b
      end;
    unfold reifyUpdateOp, reifiableUpdateOp, reifiableBinding; simpl;
    unfold ir.transformExpressionsInInterpolation;
    rewrite <- ?isOK_rewriteExpr, <- ?isOK_rewriteStmt, <- ?isOK_mapM_rewriteExpr;
    caseBinds;
    try match goal with
      | o : option string |- _ => destruct o
      end; reflexivity.
Qed.

Lemma isOK_reifyUpdateOperations (unit : CompilationUnit) (ops : list UpdateOp) :
  isOK (reifyUpdateOperations unit ops) = forallb reifiableUpdateOp ops.
Proof.
  apply isOK_mapM. apply Forall_forall. intros op _. apply isOK_reifyUpdateOp.
Qed.

Lemma isOK_reifyListenerHandler (unit : CompilationUnit) (name : option string)
      (handlerOps : list UpdateOp) (consumesDollarEvent : bool) :
  isOK (reifyListenerHandler unit name handlerOps consumesDollarEvent) =
  forallb reifiableUpdateOp handlerOps.
Proof.
  rewrite <- (isOK_reifyUpdateOperations unit).
  destruct (reifyUpdateOperations unit handlerOps) as [lowered|e] eqn:E.
  - destruct (reifyListenerHandler_total unit name handlerOps consumesDollarEvent E)
      as (stmts & _ & ->). reflexivity.
  - unfold reifyListenerHandler. rewrite E. reflexivity.
Qed.

Lemma isOK_reifyCreateOp (job : CompilationJob) (unit : CompilationUnit)
      (op : CreateOp) :
  isOK (reifyCreateOp job unit op) = reifiableCreateOp job unit op.
Proof.
  destruct op; unfold reifyCreateOp, reifiableCreateOp; simpl; try reflexivity;
    rewrite <- ?isOK_rewriteExpr, <- ?isOK_rewriteStmt.
  - destruct unit; [|reflexivity].
    match goal with
    | |- context [viewsGet ?v ?x] => destruct (viewsGet v x); reflexivity
    end.
  - rewrite <- (isOK_reifyListenerHandler unit handlerFnName handlerOps
                                           consumesDollarEvent).
    destruct (mapM (ir.transformExpressionsInUpdateOp reifyIrExpression) handlerOps)
      as [ops1|e] eqn:E; simpl.
    + unfold reifyListenerHandler.
      rewrite (reifyUpdateOperations_after_transform unit _ E).
      destruct (reifyUpdateOperations unit handlerOps) as [lowered|e]; simpl;
        [|reflexivity].
      destruct (handlerStatements lowered); reflexivity.
    + unfold reifyListenerHandler.
      destruct (reifyUpdateOperations unit handlerOps) as [lowered|e'] eqn:E';
        [|reflexivity].
      destruct (reifyUpdateOperations_OK_transform _ _ E') as (ops1 & H).
      rewrite H in E. discriminate.
  - caseBinds; destruct variableName; reflexivity.
  - caseBinds; reflexivity.
  - caseBinds; reflexivity.
Qed.

Lemma isOK_reifyCreateOperations (job : CompilationJob) (unit : CompilationUnit)
      (ops : list CreateOp) :
  isOK (reifyCreateOperations job unit ops) = forallb (reifiableCreateOp job unit) ops.
Proof.
  apply isOK_mapM. apply Forall_forall. intros op _. apply isOK_reifyCreateOp.
Qed.

Lemma forallb_pointwise {A : Type} (p q : A -> bool) (l : list A) :
  (forall a, p a = q a) -> forallb p l = forallb q l.
Proof. intros H. induction l as [|a l IH]; simpl; [reflexivity|]. now rewrite H, IH. Qed.

Lemma forallb_map_comp {A B : Type} (f : A -> B) (p : B -> bool) (l : list A) :
  forallb p (map f l) = forallb (fun a => p (f a)) l.
Proof. induction l as [|a l IH]; simpl; [reflexivity|]. now rewrite IH. Qed.

Lemma isSome_viewsGet_sameMetadata (job1 job2 : CompilationJob) (x : XrefId) :
  sameMetadata job1 job2 ->
  isSome (viewsGet (jobViews job1) x) = isSome (viewsGet (jobViews job2) x).
Proof.
  intros H. specialize (H x). unfold viewMetadata in H.
  destruct (viewsGet (jobViews job1) x), (viewsGet (jobViews job2) x);
    try discriminate; reflexivity.
Qed.

Lemma reifiableUnit_sameMetadata (job1 job2 : CompilationJob)
      (unit : CompilationUnit) :
  sameMetadata job1 job2 -> reifiableUnit job1 unit = reifiableUnit job2 unit.
Proof.
  intros H. unfold reifiableUnit. f_equal.
  apply forallb_pointwise. intros op. destruct op; try reflexivity.
  simpl. destruct unit; [|reflexivity]. now apply isSome_viewsGet_sameMetadata.
Qed.

Lemma isOK_reifyViews (todo done : list (XrefId * ViewCompilationUnit)) :
  isOK (reifyViews done todo) =
  forallb (fun entry =>
             reifiableUnit (ComponentCompilationJob (done ++ todo)) (View (snd entry)))
          todo.
Proof.
  revert done. induction todo as [|[key u] rest IH]; intros done; [reflexivity|].
  simpl. unfold reifiableUnit at 1. simpl.
  rewrite <- (isOK_reifyCreateOperations
                (ComponentCompilationJob (done ++ (key, u) :: rest)) (View u)).
  rewrite <- (isOK_reifyUpdateOperations (View u) (update u)).
  destruct (reifyCreateOperations _ _ (create u)) as [c|e]; simpl; [|reflexivity].
  unfold reifyUpdateOperations at 1.
  fold (reifyUpdateOperations (View u) (update u)).
  destruct (reifyUpdateOperations (View u) (update u)) as [up|e]; simpl;
    [|reflexivity].
  rewrite IH. apply forallb_pointwise. intros entry.
  apply reifiableUnit_sameMetadata. apply sameMetadata_step; reflexivity.
Qed.

Lemma isOK_true_exists {A : Type} (r : Result A) :
  (exists a, r = OK a) <-> isOK r = true.
Proof.
  destruct r as [a|e]; simpl; split; intros H; try discriminate; eauto.
  destruct H as (a & H). discriminate.
Qed.

(** ** A job that has been through the phase *)

Lemma reifyUpdateOp_reified_id (op : UpdateOp) :
  reifiedUpdateOp op -> reifyUpdateOp op = OK op.
Proof.
  intros (s & -> & Hs). unfold reifyUpdateOp. simpl.
  rewrite (proj2 rewrite_noIr_id s Hs). reflexivity.
Qed.

Lemma reifyCreateOp_reified_id (job : CompilationJob) (unit : CompilationUnit)
      (op : CreateOp) :
  reifiedCreateOp op -> reifyCreateOp job unit op = OK op.
Proof.
  intros (s & -> & Hs). unfold reifyCreateOp. simpl.
  rewrite (proj2 rewrite_noIr_id s Hs). reflexivity.
Qed.

Lemma reifyUpdateOperations_reified_id (unit : CompilationUnit) (ops : list UpdateOp) :
  Forall reifiedUpdateOp ops -> reifyUpdateOperations unit ops = OK ops.
Proof.
  intros H. apply mapM_id. eapply Forall_impl; [|exact H].
  intros op. apply reifyUpdateOp_reified_id.
Qed.

Lemma reifyCreateOperations_reified_id (job : CompilationJob)
      (unit : CompilationUnit) (ops : list CreateOp) :
  Forall reifiedCreateOp ops -> reifyCreateOperations job unit ops = OK ops.
Proof.
  intros H. apply mapM_id. eapply Forall_impl; [|exact H].
  intros op. apply reifyCreateOp_reified_id.
Qed.

Lemma reifyViews_reified_id (todo done : list (XrefId * ViewCompilationUnit)) :
  Forall reifiedEntry todo -> reifyViews done todo = OK (done ++ todo).
Proof.
  revert done. induction todo as [|[key u] rest IH]; intros done H.
  - rewrite app_nil_r. reflexivity.
  - inversion H as [|? ? [Hc Hu] Hrest]; subst. simpl in Hc, Hu. simpl.
    rewrite (reifyCreateOperations_reified_id _ _ Hc). simpl.
    unfold reifyUpdateOperations at 1.
    fold (reifyUpdateOperations (View u) (update u)).
    rewrite (reifyUpdateOperations_reified_id (View u) Hu). simpl.
    rewrite (IH _ Hrest). rewrite <- app_assoc. destruct u. reflexivity.
Qed.

Lemma phaseReify_reified_id (cpl : CompilationJob) :
  Forall reifiedUnit (units cpl) -> phaseReify cpl = OK cpl.
Proof.
  destruct cpl as [views|root]; simpl; intros H.
  - rewrite reifyViews_reified_id; [reflexivity|].
    rewrite Forall_map in H. exact H.
  - inversion H as [|? ? [Hc Hu] _]; subst. simpl in Hc, Hu.
    rewrite (reifyCreateOperations_reified_id _ _ Hc). simpl.
    unfold reifyUpdateOperations at 1.
    fold (reifyUpdateOperations (HostBinding root) (hostUpdate root)).
    rewrite (reifyUpdateOperations_reified_id (HostBinding root) Hu). simpl.
    destruct root. reflexivity.
Qed.

(** ** Further properties of the phase *)

(** X1. The expression rewriter (the traversal with [reifyIrExpression])
    returns an expression exactly when no node of its argument is one at
    which [reifyIrExpression] throws: a lexical read, a parameter of a pure
    function, a restore-view on a number, a kind without a case, a read or
    an assignment without a name, a pure function without its function. *)
Theorem rewriter_succeeds_iff_reifiable (e : Expression) :
  (exists e', rewriteExpr e = OK e') <-> reifiableExpr e = true.
Proof. rewrite isOK_true_exists. rewrite isOK_rewriteExpr. reflexivity. Qed.

Lemma rewriter_succeeds_iff_reifiable_example :
  exists e',
    rewriteExpr
      (PureFunctionExpr (Some (ReadVarExpr (Some "_c0")))
                        [ReadVariableExpr 4 (Some "a"); NextContextExpr 2]
                        (Some 3)) = OK e'.
Proof.
  exact (proj2 (rewriter_succeeds_iff_reifiable
                  (PureFunctionExpr (Some (ReadVarExpr (Some "_c0")))
                                    [ReadVariableExpr 4 (Some "a"); NextContextExpr 2]
                                    (Some 3))) eq_refl).
Defined.

(** X2. [reifyUpdateOperations] returns a list exactly when every operation
    of its list has a case, holds only expressions that can be rewritten, is
    not a host property on an interpolation and is not a variable without a
    name. *)
Theorem update_lowering_succeeds_iff (unit : CompilationUnit) (ops : list UpdateOp) :
  (exists out, reifyUpdateOperations unit ops = OK out) <->
  forallb reifiableUpdateOp ops = true.
Proof. rewrite isOK_true_exists, isOK_reifyUpdateOperations. reflexivity. Qed.

Lemma update_lowering_succeeds_iff_example :
  exists out, reifyUpdateOperations (View exampleRoot) (update exampleRoot) = OK out.
Proof.
  exact (proj2 (update_lowering_succeeds_iff (View exampleRoot) (update exampleRoot))
               eq_refl).
Defined.



(** X4. [phaseReify] runs to its end exactly when both lists of every unit
    of the job can be lowered, the nested templates being looked up in the
    job as it is given. *)
Theorem phaseReify_succeeds_iff (cpl : CompilationJob) :
  (exists cpl', phaseReify cpl = OK cpl') <-> reifiableJob cpl = true.
Proof.
  rewrite isOK_true_exists. unfold reifiableJob.
  destruct cpl as [views|root]; simpl.
  - rewrite forallb_map_comp.
    pose proof (isOK_reifyViews views []) as H. simpl in H. rewrite <- H.
    destruct (reifyViews [] views); reflexivity.
  - rewrite andb_true_r. unfold reifiableUnit. simpl.
    rewrite <- (isOK_reifyCreateOperations (HostBindingCompilationJob root)
                                            (HostBinding root)).
    rewrite <- (isOK_reifyUpdateOperations (HostBinding root) (hostUpdate root)).
    destruct (reifyCreateOperations _ _ (hostCreate root)); simpl; [|reflexivity].
    unfold reifyUpdateOperations.
    destruct (mapM reifyUpdateOp (hostUpdate root)); reflexivity.
Qed.

Lemma phaseReify_succeeds_iff_example :
  exists cpl', phaseReify exampleJob = OK cpl'.
Proof. exact (proj2 (phaseReify_succeeds_iff exampleJob) eq_refl). Defined.

(** X5. [phaseReify] is idempotent: the job that it returns is made of
    statement operations only, which pass through unchanged, so that the
    phase run again returns the same job. *)
Theorem phaseReify_idempotent (cpl cpl' : CompilationJob) :
  phaseReify cpl = OK cpl' -> phaseReify cpl' = OK cpl'.
Proof.
  intros H. apply phaseReify_reified_id.
  destruct cpl as [views|root]; simpl in H.
  - bindOK H. inversion H; subst. simpl.
    apply reifyViews_reified in Hx; [|constructor].
    apply Forall_map. exact Hx.
  - bindOK H. bindOK H. inversion H; subst. simpl.
    constructor; [|constructor]. split; simpl.
    + eapply reifyCreateOperations_reified; eassumption.
    + eapply reifyUpdateOperations_reified; eassumption.
Qed.

Lemma phaseReify_idempotent_example :
  phaseReify exampleJobReified = OK exampleJobReified.
Proof. exact (@phaseReify_idempotent exampleJob exampleJobReified eq_refl). Defined.

(** The views of a component after the phase, at the example. *)
Lemma phaseReify_component_example :
  exists views',
    exampleJobReified = ComponentCompilationJob views' /\
    Forall2 (reifiesTo exampleJob) [(0, exampleRoot); (1, exampleChild)] views'.
Proof.
  exact (proj1 (phaseReify_component [(0, exampleRoot); (1, exampleChild)]
                                     exampleJobReified) eq_refl).
Defined.

Lemma reifyCreateOp_templateXrefs (job1 job2 : CompilationJob)
      (unit : CompilationUnit) (op : CreateOp) :
  (forall x, In x (templateXrefs [op]) ->
             viewMetadata (jobViews job1) x = viewMetadata (jobViews job2) x) ->
  reifyCreateOp job1 unit op = reifyCreateOp job2 unit op.
Proof.
  intros H. destruct op; unfold reifyCreateOp; simpl; try reflexivity;
    try match goal with
      | |- bind (bind ?r _) _ = _ => destruct r; reflexivity
      end.
  match goal with
  | |- context [viewsGet (jobViews job1) ?x] =>
      specialize (H x (or_introl eq_refl)); unfold viewMetadata in H;
      destruct unit; [|reflexivity];
      destruct (viewsGet (jobViews job1) x), (viewsGet (jobViews job2) x);
      try discriminate; [|reflexivity]
  end.
  inversion H as [[Hf Hd Hv]]. rewrite Hf, Hd, Hv. reflexivity.
Qed.

Lemma templateXrefs_cons (op : CreateOp) (ops : list CreateOp) :
  templateXrefs (op :: ops) = templateXrefs [op] ++ templateXrefs ops.
Proof. destruct op; reflexivity. Qed.

(** X7. The lowering of a create list reads of its job only the function
    name and the two counts of the views that the nested templates of the
    list name: two jobs that agree on these give the same result, whatever
    else their views hold, and whatever views they have besides. *)
Theorem create_lowering_reads_named_views
        (job1 job2 : CompilationJob) (unit : CompilationUnit) (ops : list CreateOp) :
  (forall x, In x (templateXrefs ops) ->
             viewMetadata (jobViews job1) x = viewMetadata (jobViews job2) x) ->
  reifyCreateOperations job1 unit ops = reifyCreateOperations job2 unit ops.
Proof.
  intros H. apply mapM_ext_Forall.
  induction ops as [|op ops IH]; constructor.
  - apply reifyCreateOp_templateXrefs. intros x Hx. apply H.
    rewrite templateXrefs_cons. apply in_or_app. left. exact Hx.
  - apply IH. intros x Hx. apply H.
    rewrite templateXrefs_cons. apply in_or_app. right. exact Hx.
Qed.

Lemma create_lowering_reads_named_views_example :
  reifyCreateOperations exampleJob (View exampleRoot) (create exampleRoot) =
  reifyCreateOperations exampleJob2 (View exampleRoot) (create exampleRoot).
Proof.
  apply (@create_lowering_reads_named_views exampleJob exampleJob2).
  intros x [<-|[]]. reflexivity.
Defined.

(** X8. Variable declarations: in a create list and in an update list alike,
    once the operations before it have been replaced and its initializer
    rewritten, a variable without a name aborts the lowering with the error
    that carries its xref, and a variable with a name is replaced by a
    statement that declares it, final, with the rewritten initializer. *)
Theorem variable_declaration_lowering
        (job : CompilationJob) (unit : CompilationUnit)
        (x : XrefId) (name : option string) (initializer initializer' : Expression) :
  rewriteExpr initializer = OK initializer' ->
  (forall pre pre' post,
      reifyCreateOperations job unit pre = OK pre' ->
      reifyCreateOperations job unit
        (pre ++ VariableCreateOp x name initializer :: post) =
      match name with
      | None => Error (UnnamedVariable x)
      | Some n =>
          post' <- reifyCreateOperations job unit post ;;
          OK (pre' ++
              StatementCreateOp (DeclareVarStmt n (Some initializer') Final)
              :: post')
      end) /\
  (forall pre pre' post,
      reifyUpdateOperations unit pre = OK pre' ->
      reifyUpdateOperations unit
        (pre ++ VariableUpdateOp x name initializer :: post) =
      match name with
      | None => Error (UnnamedVariable x)
      | Some n =>
          post' <- reifyUpdateOperations unit post ;;
          OK (pre' ++
              StatementUpdateOp (DeclareVarStmt n (Some initializer') Final)
              :: post')
      end).
Proof.
  intros Hi. split; intros pre pre' post Hpre.
  - erewrite reifyCreateOperations_at by exact Hpre.
    unfold reifyCreateOp. simpl. rewrite Hi. simpl. destruct name; reflexivity.
  - erewrite reifyUpdateOperations_at by exact Hpre.
    unfold reifyUpdateOp. simpl. rewrite Hi. simpl. destruct name; reflexivity.
Qed.

Lemma variable_declaration_lowering_example :
  reifyUpdateOperations (View exampleRoot)
    ([AdvanceOp 1 None] ++ VariableUpdateOp 9 None (NextContextExpr 1) :: []) =
  Error (UnnamedVariable 9).
Proof.
  exact (proj2 (@variable_declaration_lowering exampleJob (View exampleRoot) 9 None
                  (NextContextExpr 1) (ng.nextContext 1) eq_refl)
               [AdvanceOp 1 None] [ng.advance 1 None] [] eq_refl).
Defined.

(** X9. Style, class-map and attribute bindings: once the operations before
    it have been replaced and its expression rewritten, a style property, a
    style map, a class map or an attribute binding is replaced by the
    interpolate variant of its instruction when the rewritten expression is
    an interpolation, with the fragments of the interpolation as they were
    and as many rewritten sub-expressions as it had, and by the plain
    variant with the rewritten expression when it is not; the style property
    keeps its unit in both, and the name is passed where the binding has
    one. *)
Theorem binding_interpolation_variants
        (unit : CompilationUnit) (pre post pre' : list UpdateOp)
        (binding binding' : ExpressionOrInterpolation) :
  reifyUpdateOperations unit pre = OK pre' ->
  ir.transformExpressionOrInterpolation reifyIrExpression binding = OK binding' ->
  let replacedBy (op : UpdateOp) (plain interpolate : Identifiers.t)
                 (before after : list Expression) :=
    reifyUpdateOperations unit (pre ++ op :: post) =
    (post' <- reifyUpdateOperations unit post ;;
     OK (pre' ++
         StatementUpdateOp
           (ExpressionStatement
              match binding' with
              | IsInterpolation i =>
                  InvokeFunctionExpr
                    (ExternalExpr interpolate)
                    (before ++
                     [LiteralArrayExpr
                        (map (fun s => LiteralExpr (LString s)) (strings i));
                      LiteralArrayExpr (expressions i)] ++ after)
                    None
              | IsExpression e =>
                  InvokeFunctionExpr (ExternalExpr plain)
                                     (before ++ [e] ++ after) None
              end)
         :: post')) in
  (forall name styleUnit,
      replacedBy (StylePropOp name binding styleUnit)
                 Identifiers.styleProp Identifiers.stylePropInterpolate
                 [LiteralExpr (LString name)]
                 [LiteralExpr (o.nullable styleUnit)]) /\
  replacedBy (StyleMapOp binding)
             Identifiers.styleMap Identifiers.styleMapInterpolate [] [] /\
  replacedBy (ClassMapOp binding)
             Identifiers.classMap Identifiers.classMapInterpolate [] [] /\
  (forall name,
      replacedBy (AttributeOp name binding)
                 Identifiers.attribute Identifiers.attributeInterpolate
                 [LiteralExpr (LString name)] []) /\
  (forall i,
      binding = IsInterpolation i ->
      exists i',
        binding' = IsInterpolation i' /\
        strings i' = strings i /\
        mapM rewriteExpr (expressions i) = OK (expressions i') /\
        List.length (expressions i') = List.length (expressions i)).
Proof.
  intros Hpre Hb replacedBy. unfold replacedBy.
  split; [|split; [|split; [|split]]]; intros;
    try (erewrite reifyUpdateOperations_at by exact Hpre;
         unfold reifyUpdateOp; simpl; rewrite Hb; simpl;
         destruct binding'; reflexivity).
  subst binding. apply transformBinding_OK in Hb.
  destruct binding' as [|i']; [contradiction|].
  apply transformInterpolation_OK in Hb. destruct Hb as [Hs He].
  exists i'. repeat split; try assumption. apply (mapM_length _ _ He).
Qed.

Lemma binding_interpolation_variants_example :
  reifyUpdateOperations (View exampleRoot)
    ([AdvanceOp 1 None] ++
     StylePropOp "width" (IsInterpolation exampleInterpolation) (Some "px") :: []) =
  OK [ng.advance 1 None;
      ng.stylePropInterpolate "width" ["Hello, "; "!"] [ReadVarExpr (Some "name")]
                              (Some "px")].
Proof.
  exact (proj1 (@binding_interpolation_variants (View exampleRoot)
                  [AdvanceOp 1 None] [] [ng.advance 1 None]
                  (IsInterpolation exampleInterpolation)
                  (IsInterpolation {| strings := ["Hello, "; "!"];
                                      expressions := [ReadVarExpr (Some "name")] |})
                  eq_refl eq_refl) "width" (Some "px")).
Defined.

(** X10. Text interpolation and class properties: once the operations
    before it have been replaced, a text interpolation whose sub-expressions
    can be rewritten is replaced by the text-interpolate instruction with its
    fragments as they were, the rewritten sub-expressions, as many as it had,
    and its source span; and a class property whose expression can be
    rewritten is replaced by the class-property instruction with its name
    and the rewritten expression. *)
Theorem text_interpolation_and_class_property
        (unit : CompilationUnit) (pre post pre' : list UpdateOp) :
  reifyUpdateOperations unit pre = OK pre' ->
  (forall fragments es es' sourceSpan,
      mapM rewriteExpr es = OK es' ->
      reifyUpdateOperations unit
        (pre ++ InterpolateTextOp {| strings := fragments; expressions := es |}
                                  sourceSpan :: post) =
      (post' <- reifyUpdateOperations unit post ;;
       OK (pre' ++
           StatementUpdateOp
             (ExpressionStatement
                (InvokeFunctionExpr
                   (ExternalExpr Identifiers.textInterpolate)
                   [LiteralArrayExpr
                      (map (fun s => LiteralExpr (LString s)) fragments);
                    LiteralArrayExpr es']
                   sourceSpan))
           :: post')) /\
      List.length es' = List.length es) /\
  (forall name e e',
      rewriteExpr e = OK e' ->
      reifyUpdateOperations unit (pre ++ ClassPropOp name e :: post) =
      (post' <- reifyUpdateOperations unit post ;;
       OK (pre' ++
           StatementUpdateOp
             (ExpressionStatement
                (InvokeFunctionExpr (ExternalExpr Identifiers.classProp)
                                    [LiteralExpr (LString name); e'] None))
           :: post'))).
Proof.
  intros Hpre. split.
  - intros fragments es es' sourceSpan He. split; [|apply (mapM_length _ _ He)].
    erewrite reifyUpdateOperations_at by exact Hpre.
    unfold reifyUpdateOp, ir.transformExpressionsInUpdateOp,
      ir.transformExpressionsInInterpolation. simpl. rewrite He. reflexivity.
  - intros name e e' He.
    erewrite reifyUpdateOperations_at by exact Hpre.
    unfold reifyUpdateOp. simpl. rewrite He. reflexivity.
Qed.

Lemma text_interpolation_and_class_property_example :
  reifyUpdateOperations (View exampleChild)
    ([AdvanceOp 1 exampleSpan] ++
     InterpolateTextOp {| strings := ["Hello, "; "!"];
                          expressions := [ReadVariableExpr 7 (Some "name")] |}
                       exampleSpan :: []) =
  OK [ng.advance 1 exampleSpan;
      ng.textInterpolate ["Hello, "; "!"] [ReadVarExpr (Some "name")] exampleSpan].
Proof.
  exact (proj1 (proj1 (@text_interpolation_and_class_property (View exampleChild)
                         [AdvanceOp 1 exampleSpan] [] [ng.advance 1 exampleSpan]
                         eq_refl)
                      ["Hello, "; "!"] [ReadVariableExpr 7 (Some "name")]
                      [ReadVarExpr (Some "name")] exampleSpan eq_refl)).
Defined.

Lemma Forall2_map_r {A B C : Type} (R : A -> C -> Prop) (g : B -> C)
      (l : list A) (l' : list B) :
  Forall2 R l (map g l') <-> Forall2 (fun a b => R a (g b)) l l'.
Proof.
  revert l'. induction l as [|a l IH]; intros [|b l']; simpl; split; intros H;
    try (inversion H; fail); try constructor;
    inversion H; subst; try assumption; now apply IH.
Qed.

(** X11. The function of a listener, operation by operation:
    [reifyListenerHandler] returns a function exactly when every operation of
    the handler is lowered to a statement operation, and the body of the
    function then has, at the place of each operation, the statement of its
    replacement; so the body has as many statements as the handler has
    operations. *)
Theorem listener_handler_pointwise
        (unit : CompilationUnit) (name : option string) (handlerOps : list UpdateOp)
        (consumesDollarEvent : bool) (f : Expression) :
  reifyListenerHandler unit name handlerOps consumesDollarEvent = OK f <->
  exists handlerStmts,
    f = FunctionExpr
          (if consumesDollarEvent then [{| paramName := "$event" |}] else [])
          handlerStmts name /\
    List.length handlerStmts = List.length handlerOps /\
    Forall2 (fun op statement =>
               reifyUpdateOperations unit [op] = OK [StatementUpdateOp statement])
            handlerOps handlerStmts.
Proof.
  split.
  - intros H. apply reifyListenerHandler_OK in H. destruct H as (stmts & Hops & ->).
    exists stmts. split; [reflexivity|].
    pose proof (mapM_length _ _ Hops) as Hlen. rewrite length_map in Hlen.
    split; [exact Hlen|].
    apply mapM_OK_Forall2 in Hops. apply Forall2_map_r in Hops.
    eapply Forall2_impl; [|exact Hops]. intros op s Hs.
    apply reifyUpdateOperations_single with (unit := unit). exact Hs.
  - intros (stmts & -> & _ & HF).
    assert (reifyUpdateOperations unit handlerOps = OK (map StatementUpdateOp stmts))
      as Hops.
    { apply mapM_OK_Forall2. apply Forall2_map_r.
      eapply Forall2_impl; [|exact HF]. intros op s Hs.
      apply reifyUpdateOperations_single with (unit := unit) in Hs. exact Hs. }
    destruct (reifyListenerHandler_total unit name handlerOps consumesDollarEvent Hops)
      as (stmts' & Heq & ->).
    assert (stmts' = stmts) as ->; [|reflexivity].
    clear -Heq. revert stmts' Heq.
    induction stmts as [|s stmts IH]; intros [|s' stmts'] Heq;
      try discriminate; [reflexivity|].
    simpl in Heq. inversion Heq; subst. f_equal. now apply IH.
Qed.

Lemma listener_handler_pointwise_example :
  exists handlerStmts,
    FunctionExpr [{| paramName := "$event" |}]
      [DeclareVarStmt "ctx_r1" (Some (ng.nextContext 1)) Final;
       ReturnStatement
         (ng.resetView
            (InvokeFunctionExpr
               (ReadPropExpr (ReadVarExpr (Some "ctx_r1")) "save")
               [ReadVarExpr (Some "$event")] None))]
      (Some "App_div_click_0_listener") =
    FunctionExpr [{| paramName := "$event" |}] handlerStmts
                 (Some "App_div_click_0_listener") /\
    List.length handlerStmts = List.length exampleHandler /\
    Forall2 (fun op statement =>
               reifyUpdateOperations (View exampleRoot) [op] =
               OK [StatementUpdateOp statement])
            exampleHandler handlerStmts.
Proof.
  exact (proj1 (@listener_handler_pointwise (View exampleRoot)
                  (Some "App_div_click_0_listener") exampleHandler true _) eq_refl).
Defined.

(** X12. What the rewriter leaves as it is: the expression rewriter returns
    its argument unchanged exactly when no node of it, at any depth, is an
    IR expression; and so for the statements of pass-through operations. *)
Theorem rewriter_fixed_points :
  (forall e, rewriteExpr e = OK e <-> noIrExpression e = true) /\
  (forall s, rewriteStmt s = OK s <-> noIrStatement s = true).
Proof.
  split; intros x; split.
  - apply rewriteExpr_noIr.
  - apply rewrite_noIr_id.
  - apply rewriteStmt_noIr.
  - apply rewrite_noIr_id.
Qed.

Lemma rewriter_fixed_points_example :
  rewriteExpr (ReadPropExpr (ReadVarExpr (Some "ctx")) "title") =
  OK (ReadPropExpr (ReadVarExpr (Some "ctx")) "title").
Proof.
  exact (proj2 (proj1 rewriter_fixed_points
                      (ReadPropExpr (ReadVarExpr (Some "ctx")) "title")) eq_refl).
Defined.

(** X13. Text nodes, pipes and advances: once the operations before it have
    been replaced, a text node is replaced by the text instruction with its
    slot, its initial value and its source span, a pipe declaration by the
    pipe instruction with its slot and its name, and an advance by the
    advance instruction with its delta and its source span; none of them
    makes the lowering fail. *)
Theorem text_pipe_advance_payload
        (job : CompilationJob) (unit : CompilationUnit) :
  (forall pre pre' post slot initialValue sourceSpan,
      reifyCreateOperations job unit pre = OK pre' ->
      reifyCreateOperations job unit
        (pre ++ TextOp slot initialValue sourceSpan :: post) =
      (post' <- reifyCreateOperations job unit post ;;
       OK (pre' ++
           StatementCreateOp
             (ExpressionStatement
                (InvokeFunctionExpr (ExternalExpr Identifiers.text)
                   [LiteralExpr (o.number slot); LiteralExpr (LString initialValue)]
                   sourceSpan))
           :: post'))) /\
  (forall pre pre' post slot name,
      reifyCreateOperations job unit pre = OK pre' ->
      reifyCreateOperations job unit (pre ++ PipeOp slot name :: post) =
      (post' <- reifyCreateOperations job unit post ;;
       OK (pre' ++
           StatementCreateOp
             (ExpressionStatement
                (InvokeFunctionExpr (ExternalExpr Identifiers.pipe)
                   [LiteralExpr (o.number slot); LiteralExpr (LString name)] None))
           :: post'))) /\
  (forall pre pre' post delta sourceSpan,
      reifyUpdateOperations unit pre = OK pre' ->
      reifyUpdateOperations unit (pre ++ AdvanceOp delta sourceSpan :: post) =
      (post' <- reifyUpdateOperations unit post ;;
       OK (pre' ++
           StatementUpdateOp
             (ExpressionStatement
                (InvokeFunctionExpr (ExternalExpr Identifiers.advance)
                   [LiteralExpr (LNumber delta)] sourceSpan))
           :: post'))).
Proof.
  split; [|split]; intros.
  - erewrite reifyCreateOperations_at by eassumption. reflexivity.
  - erewrite reifyCreateOperations_at by eassumption. reflexivity.
  - erewrite reifyUpdateOperations_at by eassumption. reflexivity.
Qed.

Lemma text_pipe_advance_payload_example :
  reifyCreateOperations exampleJob (View exampleChild)
    ([TextOp (Some 0) "" exampleSpan] ++ PipeOp (Some 2) "async" :: []) =
  OK [ng.text (Some 0) "" exampleSpan; ng.pipe (Some 2) "async"].
Proof.
  exact (proj1 (proj2 (text_pipe_advance_payload exampleJob (View exampleChild)))
               [TextOp (Some 0) "" exampleSpan] [ng.text (Some 0) "" exampleSpan] []
               (Some 2) "async" eq_refl).
Defined.





(** X16. The second loop of [reifyListenerHandler]: it returns the
    statements of a list of statement operations, in their order, and so
    undoes the wrapping of statements in operations; and at the first
    operation that is not a statement operation it aborts with the error that
    names the kind of that operation. *)
Theorem handler_statements_unwrap (handlerStmts : list Statement) :
  handlerStatements (map StatementUpdateOp handlerStmts) = OK handlerStmts /\
  (forall op rest,
      updateKind op <> StatementKind ->
      handlerStatements (map StatementUpdateOp handlerStmts ++ op :: rest) =
      Error (ExpectedReifiedStatement (updateKind op))).
Proof.
  split.
  - apply handlerStatements_OK. reflexivity.
  - intros op rest Hk. induction handlerStmts as [|s stmts IH]; simpl.
    + destruct op; try reflexivity. exfalso. apply Hk. reflexivity.
    + rewrite IH. reflexivity.
Qed.

Lemma handler_statements_unwrap_example :
  handlerStatements
    (map StatementUpdateOp [ReturnStatement (ReadVarExpr (Some "a"))] ++
     AdvanceOp 1 None :: []) =
  Error (ExpectedReifiedStatement AdvanceKind).
Proof.
  apply (proj2 (handler_statements_unwrap [ReturnStatement (ReadVarExpr (Some "a"))])).
  discriminate.
Defined.

Lemma reifyViews_first_error (todo done : list (XrefId * ViewCompilationUnit))
      (e : FatalError) :
  reifyViews done todo = Error e ->
  exists pre key u post pre',
    todo = pre ++ (key, u) :: post /\
    Forall2 (reifiesTo (ComponentCompilationJob (done ++ todo))) pre pre' /\
    (reifyCreateOperations (ComponentCompilationJob (done ++ todo)) (View u)
                           (create u) = Error e \/
     exists c,
       reifyCreateOperations (ComponentCompilationJob (done ++ todo)) (View u)
                             (create u) = OK c /\
       reifyUpdateOperations (View u) (update u) = Error e).
Proof.
  revert done. induction todo as [|[key u] rest IH]; intros done H; [discriminate|].
  simpl in H.
  destruct (reifyCreateOperations (ComponentCompilationJob (done ++ (key, u) :: rest))
                                  (View u) (create u)) as [c|e0] eqn:Ec.
  - simpl in H. unfold reifyUpdateOperations at 1 in H.
    fold (reifyUpdateOperations (View u) (update u)) in H.
    destruct (reifyUpdateOperations (View u) (update u)) as [up|e0] eqn:Eu.
    + simpl in H. apply IH in H.
      destruct H as (pre & k & v & post & pre' & -> & HF & Hv).
      set (u2 := {| xref := xref u; fnName := fnName u; decls := decls u;
                    vars := vars u; create := c; update := up |}) in *.
      assert (sameMetadata
                (ComponentCompilationJob ((done ++ [(key, u2)]) ++ pre ++ (k, v) :: post))
                (ComponentCompilationJob (done ++ (key, u) :: pre ++ (k, v) :: post)))
        as Hsame by (apply sameMetadata_step; reflexivity).
      exists ((key, u) :: pre), k, v, post, ((key, u2) :: pre').
      split; [reflexivity|]. split.
      * constructor.
        -- repeat (split; [reflexivity|]). simpl. split; assumption.
        -- eapply Forall2_impl; [|exact HF]. intros a b.
           apply reifiesTo_sameMetadata. exact Hsame.
      * rewrite <- (reifyCreateOperations_sameMetadata (View v) (create v) Hsame).
        exact Hv.
    + inversion H; subst. exists [], key, u, rest, [].
      split; [reflexivity|]. split; [constructor|]. right. exists c. split;
        [exact Ec|exact Eu].
  - inversion H; subst. exists [], key, u, rest, [].
    split; [reflexivity|]. split; [constructor|]. left. exact Ec.
Qed.

(** X17. The error of the phase is that of the first view that fails, in
    the order of the views of the job: every view before it has had both of
    its lists lowered, and the error is that of its create list, or, when
    its create list is lowered, that of its update list. *)
Theorem phaseReify_first_error (views : list (XrefId * ViewCompilationUnit))
        (e : FatalError) :
  phaseReify (ComponentCompilationJob views) = Error e ->
  exists pre key u post pre',
    views = pre ++ (key, u) :: post /\
    Forall2 (reifiesTo (ComponentCompilationJob views)) pre pre' /\
    (reifyCreateOperations (ComponentCompilationJob views) (View u) (create u) =
     Error e \/
     exists c,
       reifyCreateOperations (ComponentCompilationJob views) (View u) (create u) =
       OK c /\
       reifyUpdateOperations (View u) (update u) = Error e).
Proof.
  simpl. intros H.
  destruct (reifyViews [] views) as [views'|e0] eqn:E; [discriminate|].
  inversion H; subst. apply (reifyViews_first_error views [] E).
Qed.

Lemma phaseReify_first_error_example :
  exists pre key u post pre',
    exampleFailingViews = pre ++ (key, u) :: post /\
    Forall2 (reifiesTo exampleFailingJob) pre pre' /\
    (reifyCreateOperations exampleFailingJob (View u) (create u) =
     Error NotYetHandled \/
     exists c,
       reifyCreateOperations exampleFailingJob (View u) (create u) = OK c /\
       reifyUpdateOperations (View u) (update u) = Error NotYetHandled).
Proof.
  exact (@phaseReify_first_error exampleFailingViews NotYetHandled eq_refl).
Defined.
